(** * plugin-teach / search.ts : search and presentation of dialogues

    A shallow embedding of [packages/plugin-teach/src/search.ts] and the
    properties of its answer formatter, redirection resolver, merge step
    and paginator.

    JavaScript strings are sequences of UTF-16 code units; they are
    modelled as lists of code units, so [length], [slice], [startsWith]
    and [endsWith] count what the source counts. *)

From Stdlib Require Import ZArith NArith List String Ascii Bool Lia.
From Stdlib Require Import DecimalString.
From stdpp Require Import base option list gmap sorting.

Local Open Scope Z_scope.
Set Warnings "-register-all".

(** ** Strings *)

Module Js.

(** A string: its UTF-16 code units. *)
Definition jsstring := list N.

(** Literals are written as UTF-8 text in this file and decoded to the
    code units the JavaScript source holds (code points of the Basic
    Multilingual Plane are one unit each; others become a surrogate pair). *)
Fixpoint lit (s : string) : jsstring :=
  match s with
  | EmptyString => []
  | String a r =>
    let b0 := N_of_ascii a in
    if (b0 <? 128)%N then b0 :: lit r
    else if (b0 <? 224)%N then
      match r with
      | String b r' => ((b0 mod 32) * 64 + N_of_ascii b mod 64)%N :: lit r'
      | EmptyString => []
      end
    else if (b0 <? 240)%N then
      match r with
      | String b (String c r') =>
        ((b0 mod 16) * 4096 + (N_of_ascii b mod 64) * 64 + N_of_ascii c mod 64)%N
          :: lit r'
      | _ => []
      end
    else
      match r with
      | String b (String c (String d r')) =>
        let cp := ((b0 mod 8) * 262144 + (N_of_ascii b mod 64) * 4096
                   + (N_of_ascii c mod 64) * 64 + N_of_ascii d mod 64)%N in
        (55296 + (cp - 65536) / 1024)%N :: (56320 + (cp - 65536) mod 1024)%N :: lit r'
      | _ => []
      end
  end.

Definition code_eqb (a b : N) : bool := (a =? b)%N.

Arguments code_eqb : simpl never.
Arguments lit : simpl never.

(** [s.startsWith(p)] *)
Fixpoint startsWith (p s : jsstring) : bool :=
  match p, s with
  | [], _ => true
  | a :: p', b :: s' => code_eqb a b && startsWith p' s'
  | _ :: _, [] => false
  end.

(** [s.endsWith(p)] *)
Definition endsWith (p s : jsstring) : bool :=
  startsWith (rev p) (rev s).

(** Relative index of [slice]: a negative index counts from the end, and
    both ends are clamped to [0 .. len]. *)
Definition rel_index (len i : Z) : Z :=
  if i <? 0 then Z.max (len + i) 0 else Z.min i len.

(** [l.slice(from, to)] on strings and arrays. *)
Definition slice {A} (from to : Z) (l : list A) : list A :=
  let len := Z.of_nat (length l) in
  let k := rel_index len from in
  let final := rel_index len to in
  take (Z.to_nat (final - k)) (drop (Z.to_nat k) l).

(** WhiteSpace and LineTerminator code units, as [trim] strips them. *)
Definition is_space (c : N) : bool :=
  match c with
  | 9 | 10 | 11 | 12 | 13 | 32 | 160 | 5760
  | 8192 | 8193 | 8194 | 8195 | 8196 | 8197 | 8198 | 8199 | 8200 | 8201 | 8202
  | 8232 | 8233 | 8239 | 8287 | 12288 | 65279 => true
  | _ => false
  end%N.

Fixpoint trimStart (s : jsstring) : jsstring :=
  match s with
  | [] => []
  | c :: r => if is_space c then trimStart r else s
  end.

Definition trimEnd (s : jsstring) : jsstring := rev (trimStart (rev s)).

Definition trim (s : jsstring) : jsstring := trimEnd (trimStart s).

(** [parts.join(sep)] *)
Fixpoint join (sep : jsstring) (parts : list jsstring) : jsstring :=
  match parts with
  | [] => []
  | [p] => p
  | p :: rest => p ++ sep ++ join sep rest
  end.

(** [s.repeat(n)] *)
Fixpoint repeat (s : jsstring) (n : nat) : jsstring :=
  match n with
  | O => []
  | S k => s ++ repeat s k
  end.

(** Decimal rendering of an integer-valued number, as a template literal
    or [join] renders it (below 1e21, where JavaScript switches to
    exponent notation). *)
Definition of_Z (z : Z) : jsstring :=
  lit (NilZero.string_of_int (Z.to_int z)).

(** [String(x)] of a string that may be [undefined]. *)
Definition of_opt (o : option jsstring) : jsstring :=
  match o with
  | Some s => s
  | None => lit "undefined"
  end.

(** Truthiness of a string that may be [undefined]: the empty string is
    falsy. *)
Definition truthy (o : option jsstring) : bool :=
  match o with
  | Some (_ :: _) => true
  | _ => false
  end.

End Js.

Import Js.

(** ** formatAnswer *)

Definition LF : N := 10%N.
Definition CR : N := 13%N.
Definition DOLLAR : N := 36%N.
Definition LOWER_N : N := 110%N.
Definition RBRACKET : N := 93%N.
Definition ELLIPSIS : N := 8230%N.

(** Does [/(\r?\n|\$n)/] match at the head of [s]? *)
Definition break_at (s : jsstring) : bool :=
  match s with
  | c :: r =>
    code_eqb c LF
    || (code_eqb c CR && match r with d :: _ => code_eqb d LF | [] => false end)
    || (code_eqb c DOLLAR && match r with d :: _ => code_eqb d LOWER_N | [] => false end)
  | [] => false
  end.

(** [source.split(/(\r?\n|\$n)/g)]: [None] when the array has a single
    element (no match), [Some l0] with [l0 = lines[0]], the text before
    the leftmost match, when it has more. *)
Fixpoint split_first (s : jsstring) : option jsstring :=
  match s with
  | [] => None
  | c :: r =>
    if break_at s then Some []
    else match split_first r with
         | Some l0 => Some (c :: l0)
         | None => None
         end
  end.

Definition image_prefix : jsstring := lit "[CQ:image,".
Definition image_placeholder : jsstring := lit "[图片]".

(** The run of code units matched by [[^\]]+] and what follows it. *)
Fixpoint span_not_bracket (s : jsstring) : jsstring * jsstring :=
  match s with
  | [] => ([], [])
  | c :: r =>
    if code_eqb c RBRACKET then ([], s)
    else let '(body, rest) := span_not_bracket r in (c :: body, rest)
  end.

(** Does [/\[CQ:image,[^\]]+\]/] match at the head of [s]?  Returns the
    text after the match.  The class is greedy and cannot give back a
    unit that the closing bracket would accept, so the match is decided
    by the maximal run. *)
Definition image_at (s : jsstring) : option jsstring :=
  if startsWith image_prefix s then
    match span_not_bracket (drop (length image_prefix) s) with
    | (_ :: _, _ :: rest) => Some rest
    | _ => None
    end
  else None.

(** [source.replace(/\[CQ:image,[^\]]+\]/g, '[图片]')], scanning left to
    right; [fuel] bounds the number of scan steps, and each step consumes
    at least one code unit. *)
Fixpoint replace_images_from (fuel : nat) (s : jsstring) : jsstring :=
  match fuel, s with
  | _, [] => []
  | O, _ => s
  | S fuel', c :: r =>
    match image_at s with
    | Some rest => image_placeholder ++ replace_images_from fuel' rest
    | None => c :: replace_images_from fuel' r
    end
  end.

Definition replace_images (s : jsstring) : jsstring :=
  replace_images_from (length s) s.

(** The ellipsis rule at the end of [formatAnswer]. *)
Definition append_ellipsis (trimmed : bool) (source : jsstring) : jsstring :=
  if trimmed && negb (endsWith (lit "……") source) then
    if endsWith (lit "…") source then source ++ lit "…"
    else source ++ lit "……"
  else source.

(** [formatAnswer] up to the ellipsis rule: the [trimmed] flag and the
    value of [source] when line 52 is reached. *)
Definition formatAnswer_cut (source : jsstring) (maxAnswerLength : Z)
  : bool * jsstring :=
  let '(trimmed, source) :=
    match split_first source with
    | Some l0 => (true, trim l0)
    | None => (false, source)
    end in
  let source := replace_images source in
  if Z.of_nat (length source) >? maxAnswerLength
  then (true, slice 0 maxAnswerLength source)
  else (trimmed, source).

(** ** Data model *)

(** A stored dialogue.  [_redirections] is the annotation that
    [getRedirections] attaches with [Object.defineProperty]; [None] is an
    absent property.  Every lookup of the store is taken to return objects
    of its own, so an annotated result set is a tree. *)
Inductive Dialogue := mkDialogue {
  id : Z;
  original : jsstring;
  answer : jsstring;
  flag : Z;
  _redirections : option (list Dialogue);
}.

Definition set_redirections (d : Dialogue) (value : list Dialogue) : Dialogue :=
  mkDialogue (id d) (original d) (answer d) (flag d) (Some value).

Module DialogueTest.

(** [others] stands for the properties that listeners of
    ['dialogue/search'] add to the test object: name and value. *)
Record t := mk {
  question : option jsstring;
  answer : option jsstring;
  keyword : option bool;
  others : list (jsstring * jsstring);
}.

End DialogueTest.

Record SearchDetails := {
  labels : list jsstring;
  questionType : option jsstring;
  answerType : option jsstring;
}.

Record TeachConfig := {
  itemsPerPage : option Z;
  mergeThreshold : option Z;
  maxAnswerLength : option Z;
  (** first component of the array that [config._stripQuestion] returns *)
  _stripQuestion : jsstring -> jsstring;
}.

Module Options.

Record t := mk {
  keyword : option bool;
  question : option jsstring;
  answer : option jsstring;
  page : option Z;
  original : option jsstring;
  pipe : option jsstring;
  recursive : bool;
  autoMerge : bool;
}.

End Options.

(** The collaborators of one invocation, all outside this file. *)
Record Context := {
  (** [getDialogues(ctx, test)] of ./utils *)
  getDialogues : DialogueTest.t -> list Dialogue;
  (** [ctx.bail('dialogue/search', argv, test)]: whether a listener
      bailed, and the test object after the listeners ran *)
  bail_dialogue_search : DialogueTest.t -> bool * DialogueTest.t;
  (** [ctx.emit('dialogue/detail-short', dialogue, details, argv)]: the
      details after the listeners ran on the empty array *)
  emit_detail_short : Dialogue -> SearchDetails;
  (** [DialogueFlag.keyword] of ./database *)
  DialogueFlag_keyword : Z;
  (** the text of [+Math.min(total, 1).toFixed(3)] for the total of
      [getTotalWeight] on the session state of these dialogues *)
  trigger_rate : list Dialogue -> jsstring;
}.

Record TeachArgv := {
  ctx : Context;
  config : TeachConfig;
  options : Options.t;
}.

(** ** formatAnswer, continued *)

Definition formatAnswer (source : jsstring) (config : TeachConfig) : jsstring :=
  let maxAnswerLength := default 100 (maxAnswerLength config) in
  let '(trimmed, source) := formatAnswer_cut source maxAnswerLength in
  append_ellipsis trimmed source.

(** ** Details and prefixes *)

Definition getDetails (argv : TeachArgv) (dialogue : Dialogue) : SearchDetails :=
  let details := emit_detail_short (ctx argv) dialogue in
  if negb (Z.land (flag dialogue) (DialogueFlag_keyword (ctx argv)) =? 0)
  then {| labels := labels details;
          questionType := Some (lit "关键词");
          answerType := answerType details |}
  else details.

Definition formatDetails (dialogue : Dialogue) (details : SearchDetails) : jsstring :=
  of_Z (id dialogue) ++ lit ". "
  ++ match labels details with
     | [] => []
     | _ :: _ => lit "[" ++ join (lit ", ") (labels details) ++ lit "] "
     end.

Definition formatPrefix (argv : TeachArgv) (dialogue : Dialogue)
    (showAnswerType : bool) : jsstring :=
  let details := getDetails argv dialogue in
  let result := formatDetails dialogue details in
  let result :=
    if truthy (questionType details)
    then result ++ lit "[" ++ of_opt (questionType details) ++ lit "] "
    else result in
  if showAnswerType && truthy (answerType details)
  then result ++ lit "[" ++ of_opt (answerType details) ++ lit "] "
  else result.

(** One element of the array [formatAnswers(argv, dialogues, padding)]. *)
Fixpoint formatAnswers_entry (argv : TeachArgv) (padding : nat)
    (dialogue : Dialogue) {struct dialogue} : jsstring :=
  match dialogue with
  | mkDialogue _ _ answer _ redirections =>
    let output := repeat (lit "=> ") padding
                  ++ formatPrefix argv dialogue true
                  ++ formatAnswer answer (config argv) in
    match redirections with
    | None => output
    | Some children =>
      join (lit (String "010"%char EmptyString))
           (output :: map (formatAnswers_entry argv (S padding)) children)
    end
  end.

Definition formatAnswers (argv : TeachArgv) (dialogues : list Dialogue)
    (padding : nat) : list jsstring :=
  map (formatAnswers_entry argv padding) dialogues.

Definition formatQuestionAnswers (argv : TeachArgv) (dialogues : list Dialogue)
    : list jsstring :=
  map (fun dialogue =>
    let details := getDetails argv dialogue in
    let questionType := default (lit "问题") (questionType details) in
    let answerType := default (lit "回答") (answerType details) in
    let output := formatDetails dialogue details ++ questionType ++ lit "："
                  ++ original dialogue ++ lit "，" ++ answerType ++ lit "："
                  ++ formatAnswer (answer dialogue) (config argv) in
    match _redirections dialogue with
    | None => output
    | Some children =>
      join (lit (String "010"%char EmptyString))
           (output :: formatAnswers argv children 1)
    end) dialogues.

(** ** Redirection resolution *)

(** Names that every object literal inherits from [Object.prototype]; the
    [in] operator answers [true] for them on any plain object. *)
Definition object_prototype_keys : list jsstring :=
  map lit [ "constructor"; "__defineGetter__"; "__defineSetter__";
            "hasOwnProperty"; "__lookupGetter__"; "__lookupSetter__";
            "isPrototypeOf"; "propertyIsEnumerable"; "toString"; "valueOf";
            "__proto__"; "toLocaleString" ]%string.

Definition inherited (key : jsstring) : bool :=
  bool_decide (key ∈ object_prototype_keys).

(** [key in questions] *)
Definition js_in (key : jsstring) (questions : gmap jsstring (list Dialogue)) : bool :=
  match questions !! key with
  | Some _ => true
  | None => inherited key
  end.

Definition redirect_prefix : jsstring := lit "${dialogue ".

(** Lines 126-127: [None] when the loop takes [continue] at line 126,
    otherwise the [question] of line 127. *)
Definition redirect_target (config : TeachConfig) (answer : jsstring)
    : option jsstring :=
  if startsWith redirect_prefix answer
  then Some (_stripQuestion config (trimStart (slice 11 (-1) answer)))
  else None.

(** The test of lines 129-133: [{ ...test, keyword: false, question }]. *)
Definition child_test (test : DialogueTest.t) (question : jsstring) : DialogueTest.t :=
  {| DialogueTest.question := Some question;
     DialogueTest.answer := DialogueTest.answer test;
     DialogueTest.keyword := Some false;
     DialogueTest.others := DialogueTest.others test |}.

(** What the resolver shares between its calls: the [questions] object
    and, for the proofs, the tests it passed to [getDialogues] so far.
    The source reads [questions[question]] only on the two lines after it
    has written it, so the map records each array as fetched; the
    annotations its dialogues receive later are in the result. *)
Record Resolution := {
  questions : gmap jsstring (list Dialogue);
  lookups : list DialogueTest.t;
}.

(** [getRedirections(dialogues)].  The loop over the array is structural;
    [fuel] bounds the depth of the calls at line 135, and [None] is an
    exhausted bound.  The result is the array with the annotations its
    dialogues have received. *)
Fixpoint getRedirections (argv : TeachArgv) (test : DialogueTest.t)
    (fuel : nat) (dialogues : list Dialogue) (st : Resolution)
    {struct fuel} : option (list Dialogue * Resolution) :=
  match fuel with
  | O => None
  | S fuel' =>
    (fix loop (dialogues : list Dialogue) (st : Resolution)
       : option (list Dialogue * Resolution) :=
       match dialogues with
       | [] => Some ([], st)
       | dialogue :: rest =>
         match redirect_target (config argv) (answer dialogue) with
         | None =>
           '(rest', st') ← loop rest st;
           Some (dialogue :: rest', st')
         | Some question =>
           if js_in question (questions st) then
             '(rest', st') ← loop rest st;
             Some (dialogue :: rest', st')
           else
             let fetched := getDialogues (ctx argv) (child_test test question) in
             let st1 := {| questions := <[question := fetched]> (questions st);
                           lookups := lookups st ++ [child_test test question] |} in
             '(children, st2) ← getRedirections argv test fuel' fetched st1;
             '(rest', st3) ← loop rest st2;
             Some (set_redirections dialogue children :: rest', st3)
         end
       end) dialogues st
  end.

(** Lines 118-138, when [recursive] is set: the object literal seeds
    [questions] with the property named [String(test.question)]. *)
Definition resolve (argv : TeachArgv) (test : DialogueTest.t) (fuel : nat)
    (dialogues : list Dialogue) : option (list Dialogue * Resolution) :=
  getRedirections argv test fuel dialogues
    {| questions := {[ of_opt (DialogueTest.question test) := dialogues ]};
       lookups := [] |}.

(** ** Pagination *)

Definition trailer : jsstring :=
  lit "可以使用 --page 或在 ## 之后加上页码以调整输出的条目页数。".

(** [Math.ceil(a / b)] on integers, [b] not zero. *)
Definition ceil_div (a b : Z) : Z := - ((- a) / b).

(** The text of [${pageCount}] at line 147.  The quotient by a zero page
    size is [Infinity]: line 145 is reached with [length] above
    [itemsPerPage], so with a positive length there. *)
Definition pageCount_text (length itemsPerPage : Z) : jsstring :=
  if itemsPerPage =? 0 then lit "Infinity"
  else of_Z (ceil_div length itemsPerPage).

Definition push_suffix (output : list jsstring) (suffix : option jsstring)
    : list jsstring :=
  if truthy suffix then output ++ [of_opt suffix] else output.

(** The array [output] of [sendResult] when line 151 joins it. *)
Definition sendResult_output (argv : TeachArgv) (title : jsstring)
    (output : list jsstring) (suffix : option jsstring) : list jsstring :=
  let page := default 1 (Options.page (options argv)) in
  let itemsPerPage := default 20 (itemsPerPage (config argv)) in
  if Z.of_nat (length output) <=? itemsPerPage then
    push_suffix ((title ++ lit "：") :: output) suffix
  else
    let pageCount := pageCount_text (Z.of_nat (length output)) itemsPerPage in
    let output := slice ((page - 1) * itemsPerPage) (page * itemsPerPage) output in
    let output := (title ++ lit "（第 " ++ of_Z page ++ lit "/" ++ pageCount
                   ++ lit " 页）：") :: output in
    push_suffix output suffix ++ [trailer].

(** The text that [sendResult] hands to [meta.$send]. *)
Definition sendResult (argv : TeachArgv) (title : jsstring)
    (output : list jsstring) (suffix : option jsstring) : jsstring :=
  join (lit (String "010"%char EmptyString)) (sendResult_output argv title output suffix).

(** ** Merging *)

(** [idMap], an object literal used as a map: its own properties in the
    order of their creation. *)
Definition IdMap := list (jsstring * list Z).

Fixpoint idMap_get (key : jsstring) (idMap : IdMap) : option (list Z) :=
  match idMap with
  | [] => None
  | (k, ids) :: rest => if decide (k = key) then Some ids else idMap_get key rest
  end.

(** Lines 187-188 for a key that is not inherited. *)
Fixpoint idMap_push (key : jsstring) (n : Z) (idMap : IdMap) : IdMap :=
  match idMap with
  | [] => [(key, [n])]
  | (k, ids) :: rest =>
    if decide (k = key) then (k, ids ++ [n]) :: rest
    else (k, ids) :: idMap_push key n rest
  end.

(** Lines 184-189.  For an inherited name [idMap[key]] is the inherited
    value, which is truthy and has no [push]: line 188 throws a
    [TypeError], rendered as [None]. *)
Fixpoint collect_ids (by_question : bool) (dialogues : list Dialogue)
    (idMap : IdMap) : option IdMap :=
  match dialogues with
  | [] => Some idMap
  | dialogue :: rest =>
    let key := if by_question then original dialogue else answer dialogue in
    if inherited key then None
    else collect_ids by_question rest (idMap_push key (id dialogue) idMap)
  end.

Definition digit_value (c : N) : option N :=
  if ((48 <=? c) && (c <=? 57))%N then Some (c - 48)%N else None.

Fixpoint digits_value (acc : N) (s : jsstring) : option N :=
  match s with
  | [] => Some acc
  | c :: r =>
    match digit_value c with
    | Some d => digits_value (acc * 10 + d)%N r
    | None => None
    end
  end.

(** Is the property name an array index (a canonical numeric string below
    2^32 - 1)? *)
Definition array_index (key : jsstring) : option N :=
  match key with
  | [] => None
  | _ :: _ =>
    match digits_value 0%N key with
    | Some n =>
      if (n <? 4294967295)%N && bool_decide (of_Z (Z.of_N n) = key)
      then Some n else None
    | None => None
    end
  end.

Definition index_le (a b : N * jsstring) : Prop := (a.1 <= b.1)%N.

#[local] Instance index_le_dec a b : Decision (index_le a b) :=
  decide ((a.1 <= b.1)%N).

(** [Object.keys(idMap)]: array indices in ascending order, then the
    other names in the order of their creation. *)
Definition object_keys (idMap : IdMap) : list jsstring :=
  let indexed :=
    omap (fun e : jsstring * list Z =>
            match array_index e.1 with Some n => Some (n, e.1) | None => None end)
         idMap in
  let named :=
    List.filter (fun k => match array_index k with Some _ => false | None => true end)
                (map fst idMap) in
  map snd (merge_sort index_le indexed) ++ named.

(** Lines 191-194: the line of one group. *)
Definition render_group (by_question : bool) (mergeThreshold : Z)
    (key : jsstring) (ids : list Z) : jsstring :=
  let length := Z.of_nat (length ids) in
  if length <=? mergeThreshold
  then key ++ lit " (#" ++ join (lit ", #") (map of_Z ids) ++ lit ")"
  else key ++ lit " (共 " ++ of_Z length ++ lit " 个"
       ++ (if by_question then lit "回答" else lit "问题") ++ lit ")".

(** Lines 184-195, the [else] branch of line 181. *)
Definition merge_output (argv : TeachArgv) (dialogues : list Dialogue)
    : option (list jsstring) :=
  let by_question := truthy (Options.question (options argv)) in
  let mergeThreshold := default 5 (mergeThreshold (config argv)) in
  idMap ← collect_ids by_question dialogues [];
  Some (map (fun key =>
               render_group by_question mergeThreshold key
                            (default [] (idMap_get key idMap)))
            (object_keys idMap)).

(** ** search *)

Inductive Outcome :=
  (** line 107: a listener bailed, nothing is sent *)
  | Bailed
  (** [meta.$send(message)] of an empty-result branch *)
  | NoResults (message : jsstring)
  (** [sendResult(title, output, suffix)] *)
  | Listing (title : jsstring) (output : list jsstring) (suffix : option jsstring)
  (** lines 112-115: the piped teach command runs on [options.target] *)
  | Piped (pipe : jsstring) (target : jsstring)
  (** an uncaught [TypeError] *)
  | Thrown.

Definition is_true_opt (o : option bool) : bool :=
  match o with Some true => true | _ => false end.

Definition is_empty (dialogues : list Dialogue) : bool :=
  match dialogues with [] => true | _ :: _ => false end.

Definition quoted (s : option jsstring) : jsstring :=
  lit "“" ++ of_opt s ++ lit "”".

(** Lines 154-207. *)
Definition report (argv : TeachArgv) (dialogues : list Dialogue) : Outcome :=
  let question := Options.question (options argv) in
  let answer := Options.answer (options argv) in
  let asked := Options.original (options argv) in
  if negb (truthy question) && negb (truthy answer) then
    if is_empty dialogues
    then NoResults (lit "没有搜索到任何回答，尝试切换到其他环境。")
    else Listing (lit "全部问答如下") (formatQuestionAnswers argv dialogues) None
  else if negb (is_true_opt (Options.keyword (options argv))) then
    if negb (truthy question) then
      if is_empty dialogues
      then NoResults (lit "没有搜索到回答" ++ quoted answer
                      ++ lit "，请尝试使用关键词匹配。")
      else Listing (lit "回答" ++ quoted answer ++ lit "的问题如下")
                   (map (fun d => formatPrefix argv d false ++ original d)
                        dialogues)
                   None
    else if negb (truthy answer) then
      if is_empty dialogues
      then NoResults (lit "没有搜索到问题" ++ quoted asked
                      ++ lit "，请尝试使用关键词匹配。")
      else Listing (lit "问题" ++ quoted asked ++ lit "的回答如下")
                   (formatAnswers argv dialogues 0)
                   (Some (if (1 <? length dialogues)%nat
                          then lit "实际触发概率：" ++ trigger_rate (ctx argv) dialogues
                          else []))
    else
      if is_empty dialogues
      then NoResults (lit "没有搜索到问答" ++ quoted asked ++ quoted answer
                      ++ lit "，请尝试使用关键词匹配。")
      else Listing (quoted asked ++ quoted answer ++ lit "匹配的回答如下")
                   [join (lit ", ") (map (fun d => of_Z (id d)) dialogues)]
                   None
  else
    let output :=
      if negb (Options.autoMerge (options argv)) || (truthy question && truthy answer)
      then Some (formatQuestionAnswers argv dialogues)
      else merge_output argv dialogues in
    match output with
    | None => Thrown
    | Some output =>
      if negb (truthy question) then
        if is_empty dialogues
        then NoResults (lit "没有搜索到含有关键词" ++ quoted answer ++ lit "的回答。")
        else Listing (lit "回答关键词" ++ quoted answer ++ lit "的搜索结果如下") output None
      else if negb (truthy answer) then
        if is_empty dialogues
        then NoResults (lit "没有搜索到含有关键词" ++ quoted asked ++ lit "的问题。")
        else Listing (lit "问题关键词" ++ quoted asked ++ lit "的搜索结果如下") output None
      else
        if is_empty dialogues
        then NoResults (lit "没有搜索到含有关键词" ++ quoted asked ++ quoted answer
                        ++ lit "的问答。")
        else Listing (lit "问答关键词" ++ quoted asked ++ quoted answer
                      ++ lit "的搜索结果如下") output None
    end.

(** Line 106: [{ question, answer, keyword }]. *)
Definition initial_test (o : Options.t) : DialogueTest.t :=
  {| DialogueTest.question := Options.question o;
     DialogueTest.answer := Options.answer o;
     DialogueTest.keyword := Options.keyword o;
     DialogueTest.others := [] |}.

(** [search(argv)]; [fuel] is the bound of [getRedirections] and [None]
    an exhausted bound. *)
Definition search (fuel : nat) (argv : TeachArgv) : option Outcome :=
  let test := initial_test (options argv) in
  let '(bailed, test) := bail_dialogue_search (ctx argv) test in
  if bailed then Some Bailed else
  let dialogues := getDialogues (ctx argv) test in
  if truthy (Options.pipe (options argv)) then
    if is_empty dialogues then Some (NoResults (lit "没有搜索到任何问答。"))
    else Some (Piped (of_opt (Options.pipe (options argv)))
                     (join (lit ",") (map (fun d => of_Z (id d)) dialogues)))
  else
    dialogues ←
      (if Options.recursive (options argv)
       then fst <$> resolve argv test fuel dialogues
       else Some dialogues);
    Some (report argv dialogues).

(** What reaches [meta.$send]. *)
Definition sent (argv : TeachArgv) (o : Outcome) : option jsstring :=
  match o with
  | NoResults message => Some message
  | Listing title output suffix => Some (sendResult argv title output suffix)
  | _ => None
  end.

(** ** Vocabulary of the properties *)

(** [s.includes(p)] *)
Fixpoint includes (p s : jsstring) : bool :=
  startsWith p s || match s with [] => false | _ :: r => includes p r end.

(** Is there a position of [s] where the image pattern matches? *)
Fixpoint has_image_marker (s : jsstring) : bool :=
  match s with
  | [] => false
  | _ :: r => bool_decide (is_Some (image_at s)) || has_image_marker r
  end.

(** Number of ellipsis code units at the end of a string. *)
Fixpoint leading_ellipses (s : jsstring) : nat :=
  match s with
  | c :: r => if code_eqb c ELLIPSIS then S (leading_ellipses r) else O
  | [] => O
  end.

Definition trailing_ellipses (s : jsstring) : nat := leading_ellipses (rev s).

(** The text the dialogues of one search are grouped by. *)
Definition group_key (by_question : bool) (dialogue : Dialogue) : jsstring :=
  if by_question then original dialogue else answer dialogue.

(** The ids of the dialogues with a given key, in the order of the array. *)
Definition group_ids (by_question : bool) (key : jsstring)
    (dialogues : list Dialogue) : list Z :=
  map id (List.filter (fun d => bool_decide (group_key by_question d = key)) dialogues).

(** Does line 181 take its [else] branch, in keyword mode? *)
Definition merge_applies (o : Options.t) : bool :=
  is_true_opt (Options.keyword o)
  && (truthy (Options.question o) || truthy (Options.answer o))
  && Options.autoMerge o
  && negb (truthy (Options.question o) && truthy (Options.answer o)).

(** The grouping as the specification words it: by the dimension that is
    not searched. *)
Definition group_key_by_other_dimension (by_question : bool) (dialogue : Dialogue)
    : jsstring :=
  if by_question then answer dialogue else original dialogue.

(** The redirect test as the specification words it: the trimmed answer
    has the form [${dialogue <question-text>}]. *)
Definition matches_redirect_pattern (answer : jsstring) : bool :=
  let a := trim answer in
  startsWith redirect_prefix a && endsWith (lit "}") a
  && (length redirect_prefix <? length a)%nat.

Inductive QueryShape :=
  | AllDialogues | ExactAnswer | ExactQuestion | ExactBoth
  | KeywordAnswer | KeywordQuestion | KeywordBoth | PipeForm.

Definition shape_of (o : Options.t) : QueryShape :=
  if truthy (Options.pipe o) then PipeForm
  else match truthy (Options.question o), truthy (Options.answer o),
             is_true_opt (Options.keyword o) with
       | false, false, _ => AllDialogues
       | false, true, false => ExactAnswer
       | true, false, false => ExactQuestion
       | true, true, false => ExactBoth
       | false, true, true => KeywordAnswer
       | true, false, true => KeywordQuestion
       | true, true, true => KeywordBoth
       end.

(** The message of each empty-result state, for the typed question
    [asked] and the answer filter [answer]. *)
Definition no_results_message (shape : QueryShape) (asked answer : option jsstring)
    : jsstring :=
  match shape with
  | PipeForm => lit "没有搜索到任何问答。"
  | AllDialogues => lit "没有搜索到任何回答，尝试切换到其他环境。"
  | ExactAnswer => lit "没有搜索到回答" ++ quoted answer ++ lit "，请尝试使用关键词匹配。"
  | ExactQuestion => lit "没有搜索到问题" ++ quoted asked ++ lit "，请尝试使用关键词匹配。"
  | ExactBoth => lit "没有搜索到问答" ++ quoted asked ++ quoted answer
                 ++ lit "，请尝试使用关键词匹配。"
  | KeywordAnswer => lit "没有搜索到含有关键词" ++ quoted answer ++ lit "的回答。"
  | KeywordQuestion => lit "没有搜索到含有关键词" ++ quoted asked ++ lit "的问题。"
  | KeywordBoth => lit "没有搜索到含有关键词" ++ quoted asked ++ quoted answer
                   ++ lit "的问答。"
  end.

(** The dialogues a store can return. *)
Definition store_within (c : Context) (store : list Dialogue) : Prop :=
  forall t d, d ∈ getDialogues c t -> d ∈ store.

(** The question texts the resolver has looked up. *)
Definition asked_questions (st : Resolution) : list (option jsstring) :=
  map DialogueTest.question (lookups st).

(** The question texts that the dialogues of a list redirect to. *)
Definition targets (config : TeachConfig) (dialogues : list Dialogue) : list jsstring :=
  omap (fun d => redirect_target config (answer d)) dialogues.

(** How many targets of a universe of dialogues [questions] does not
    answer [in] for yet: the measure of the resolver. *)
Definition pending (config : TeachConfig) (universe : list Dialogue)
    (questions : gmap jsstring (list Dialogue)) : nat :=
  length (List.filter (fun q => negb (js_in q questions)) (targets config universe)).

(** The invariant of the resolver's state: every test it looked up is a
    child test, no question text was looked up twice, and the own
    properties of [questions] are the root question and the texts looked
    up. *)
Definition resolver_inv (root : jsstring) (test : DialogueTest.t)
    (st : Resolution) : Prop :=
  NoDup (asked_questions st)
  /\ Forall (fun t => exists q, t = child_test test q) (lookups st)
  /\ (forall q, is_Some (questions st !! q)
                 <-> q = root \/ Some q ∈ asked_questions st)
  /\ (Some root ∉ asked_questions st)
  /\ size (questions st) = S (length (lookups st)).

(** The state only grows: recorded lists stay, lookups are appended. *)
Definition extends (st st' : Resolution) : Prop :=
  (forall q v, questions st !! q = Some v -> questions st' !! q = Some v)
  /\ (exists more, lookups st' = lookups st ++ more).

(** Annotating leaves the stored fields of a dialogue alone. *)
Definition same_record (d' d : Dialogue) : Prop :=
  id d' = id d /\ original d' = original d /\ answer d' = answer d
  /\ flag d' = flag d.

(** ** Fixtures *)

Module Fixtures.

Definition no_details : SearchDetails :=
  {| labels := []; questionType := None; answerType := None |}.

Definition plain_config : TeachConfig :=
  {| itemsPerPage := None; mergeThreshold := None; maxAnswerLength := None;
     _stripQuestion := fun s => s |}.

Definition config_max (n : Z) : TeachConfig :=
  {| itemsPerPage := None; mergeThreshold := None; maxAnswerLength := Some n;
     _stripQuestion := fun s => s |}.

(** A store answering exact question lookups from a fixed table. *)
Definition table_context (table : list Dialogue) : Context :=
  {| getDialogues := fun t =>
       List.filter (fun d => bool_decide (Some (original d) = DialogueTest.question t))
                   table;
     bail_dialogue_search := fun t => (false, t);
     emit_detail_short := fun _ => no_details;
     DialogueFlag_keyword := 4;
     trigger_rate := fun _ => lit "1" |}.

(** A store answering every lookup with the whole table. *)
Definition constant_context (table : list Dialogue) : Context :=
  {| getDialogues := fun _ => table;
     bail_dialogue_search := fun t => (false, t);
     emit_detail_short := fun _ => no_details;
     DialogueFlag_keyword := 4;
     trigger_rate := fun _ => lit "1" |}.

(** Two dialogues redirecting to each other's question. *)
Definition dA : Dialogue := mkDialogue 1 (lit "A") (lit "${dialogue B}") 0 None.
Definition dB : Dialogue := mkDialogue 2 (lit "B") (lit "${dialogue A}") 0 None.

Definition cycle_options : Options.t :=
  Options.mk None (Some (lit "A")) None None (Some (lit "A")) None true false.

Definition cycle_argv : TeachArgv :=
  {| ctx := table_context [dA; dB]; config := plain_config; options := cycle_options |}.

Definition cycle_test : DialogueTest.t :=
  DialogueTest.mk (Some (lit "A")) None None [].

(** The resolver's state when it reaches [dB]: the root question is
    recorded. *)
Definition cycle_state : Resolution :=
  {| questions := {[ lit "A" := [dA] ]}; lookups := [] |}.

(** An answer with white space before the prefix, and one with the prefix
    and no closing brace. *)
Definition dSpace : Dialogue := mkDialogue 3 (lit "s") (lit " ${dialogue x}") 0 None.
Definition dOpen : Dialogue := mkDialogue 4 (lit "o") (lit "${dialogue xy") 0 None.
Definition dX : Dialogue := mkDialogue 5 (lit "x") (lit "ok") 0 None.

Definition prefix_argv : TeachArgv :=
  {| ctx := table_context [dSpace; dOpen; dX]; config := plain_config;
     options := cycle_options |}.

Definition page_argv (page : option Z) (size : option Z) : TeachArgv :=
  {| ctx := table_context [];
     config := {| itemsPerPage := size; mergeThreshold := None;
                  maxAnswerLength := None; _stripQuestion := fun s => s |};
     options := Options.mk None None None page None None false false |}.

Definition numbered_lines (n : nat) : list jsstring :=
  map (fun i => of_Z (Z.of_nat i)) (seq 1 n).

(** Two answers taught for one question, found by a question keyword. *)
Definition d1 : Dialogue := mkDialogue 1 (lit "q") (lit "a1") 0 None.
Definition d2 : Dialogue := mkDialogue 2 (lit "q") (lit "a2") 0 None.

Definition merge_options : Options.t :=
  Options.mk (Some true) (Some (lit "q")) None None (Some (lit "q")) None false true.

Definition merge_argv : TeachArgv :=
  {| ctx := constant_context [d1; d2]; config := plain_config; options := merge_options |}.

(** [n] answers taught for the question "q". *)
Definition answers_for_q (n : nat) : list Dialogue :=
  map (fun i => mkDialogue (Z.of_nat i) (lit "q") (lit "a" ++ of_Z (Z.of_nat i)) 0 None)
      (seq 1 n).

(** A question whose text is a name that objects inherit. *)
Definition dInherited : Dialogue :=
  mkDialogue 9 (lit "constructor") (lit "a") 0 None.

Definition inherited_argv : TeachArgv :=
  {| ctx := constant_context [dInherited]; config := plain_config;
     options := merge_options |}.

(** A piped search that finds one dialogue. *)
Definition d7 : Dialogue := mkDialogue 7 (lit "hi") (lit "hello") 0 None.

Definition pipe_options : Options.t :=
  Options.mk None (Some (lit "hi")) None None (Some (lit "hi")) (Some (lit "-r")) false false.

Definition pipe_argv : TeachArgv :=
  {| ctx := constant_context [d7]; config := plain_config; options := pipe_options |}.

Definition empty_argv (o : Options.t) : TeachArgv :=
  {| ctx := constant_context []; config := plain_config; options := o |}.

End Fixtures.

(** ** Vocabulary of the further properties *)

Definition LBRACKET : N := 91%N.

Definition NEWLINE : jsstring := lit (String "010"%char EmptyString).

(** The lines of a dialogue and of its resolved redirections, parents
    before children, every line indented by its depth. *)
Fixpoint tree_lines (argv : TeachArgv) (padding : nat) (dialogue : Dialogue)
    {struct dialogue} : list jsstring :=
  match dialogue with
  | mkDialogue _ _ answer _ redirections =>
    (repeat (lit "=> ") padding ++ formatPrefix argv dialogue true
     ++ formatAnswer answer (config argv))
    :: match redirections with
       | None => []
       | Some children => concat (map (tree_lines argv (S padding)) children)
       end
  end.

(** The first line of an entry of [formatQuestionAnswers]. *)
Definition question_line (argv : TeachArgv) (dialogue : Dialogue) : jsstring :=
  let details := getDetails argv dialogue in
  formatDetails dialogue details ++ default (lit "问题") (questionType details)
  ++ lit "：" ++ original dialogue ++ lit "，"
  ++ default (lit "回答") (answerType details) ++ lit "："
  ++ formatAnswer (answer dialogue) (config argv).

(** The distinct texts of a list in the order of their first occurrence. *)
Definition first_seen (keys : list jsstring) : list jsstring :=
  fold_left (fun seen key => if bool_decide (key ∈ seen) then seen else seen ++ [key])
            keys [].

Definition is_index (key : jsstring) : bool :=
  match array_index key with Some _ => true | None => false end.

(** Two property names in the order of [Object.keys] among array
    indices. *)
Definition index_order (k1 k2 : jsstring) : Prop :=
  match array_index k1, array_index k2 with
  | Some a, Some b => (a <= b)%N
  | _, _ => True
  end.

(** What the resolver may have done to a dialogue: nothing, or attached
    the annotated answer of the store to the child test of its target. *)
Inductive annotation (argv : TeachArgv) (test : DialogueTest.t)
    : Dialogue -> Dialogue -> Prop :=
  | annotation_none (d : Dialogue) : annotation argv test d d
  | annotation_some (d : Dialogue) (q : jsstring) (children : list Dialogue) :
      redirect_target (config argv) (answer d) = Some q ->
      inherited q = false ->
      Forall2 (annotation argv test) children
              (getDialogues (ctx argv) (child_test test q)) ->
      annotation argv test (set_redirections d children) d.

(** A lookup that a dialogue of [universe] asks for. *)
Definition asked_by (argv : TeachArgv) (test : DialogueTest.t)
    (universe : list Dialogue) (t : DialogueTest.t) : Prop :=
  exists d q, d ∈ universe
              /\ redirect_target (config argv) (answer d) = Some q
              /\ inherited q = false
              /\ t = child_test test q.

(** The page numbers [1 .. n]. *)
Definition page_numbers (n : Z) : list Z :=
  map Z.of_nat (seq 1 (Z.to_nat n)).

(** Lines 146: the body of a page. *)
Definition page_body (size page : Z) (output : list jsstring) : list jsstring :=
  slice ((page - 1) * size) (page * size) output.

Module MoreFixtures.

Definition dRoot : Dialogue :=
  mkDialogue 3 (lit "start") (lit "${dialogue target}") 0 None.
Definition dTarget : Dialogue :=
  mkDialogue 4 (lit "target") (lit "ok") 0 None.

Definition chain_options : Options.t :=
  Options.mk None (Some (lit "start")) None None (Some (lit "start")) None true false.

Definition chain_argv : TeachArgv :=
  {| ctx := Fixtures.table_context [dRoot; dTarget];
     config := Fixtures.plain_config; options := chain_options |}.

Definition chain_test : DialogueTest.t :=
  DialogueTest.mk (Some (lit "start")) None None [].

(** Question keyword search over questions "b", "10", "b", "9". *)
Definition mixed : list Dialogue :=
  [ mkDialogue 1 (lit "b") (lit "x") 0 None;
    mkDialogue 2 (lit "10") (lit "y") 0 None;
    mkDialogue 3 (lit "b") (lit "z") 0 None;
    mkDialogue 4 (lit "9") (lit "w") 0 None ].

Definition mixed_argv : TeachArgv :=
  {| ctx := Fixtures.constant_context mixed; config := Fixtures.plain_config;
     options := Fixtures.merge_options |}.

(** A hook that labels every question as a picture question. *)
Definition labelling_context : Context :=
  {| getDialogues := fun _ => [];
     bail_dialogue_search := fun t => (false, t);
     emit_detail_short := fun _ =>
       {| labels := [lit "x"]; questionType := Some (lit "图片"); answerType := None |};
     DialogueFlag_keyword := 4;
     trigger_rate := fun _ => lit "0.5" |}.

Definition labelling_argv : TeachArgv :=
  {| ctx := labelling_context; config := Fixtures.plain_config;
     options := Fixtures.cycle_options |}.

Definition dKeyword : Dialogue := mkDialogue 8 (lit "k") (lit "v") 6 None.

End MoreFixtures.

(** * Properties *)

(** ** Strings *)

Section StringFacts.

Lemma code_eqb_eq a b : code_eqb a b = true <-> a = b.
Proof. unfold code_eqb. apply N.eqb_eq. Qed.

Lemma startsWith_app p r : startsWith p (p ++ r) = true.
Proof.
  induction p as [|a p IH]; simpl; [reflexivity|].
  rewrite IH, andb_true_r. apply code_eqb_eq. reflexivity.
Qed.

Lemma startsWith_inv p s :
  startsWith p s = true -> exists r, s = p ++ r.
Proof.
  revert s. induction p as [|a p IH]; intros s H.
  - exists s. reflexivity.
  - destruct s as [|b s]; simpl in H; [discriminate|].
    apply andb_true_iff in H as [Hab Hps].
    apply code_eqb_eq in Hab. subst b.
    destruct (IH _ Hps) as [r ->]. exists r. reflexivity.
Qed.

Lemma endsWith_app r p : endsWith p (r ++ p) = true.
Proof. unfold endsWith. rewrite rev_app_distr. apply startsWith_app. Qed.

Lemma endsWith_inv p s :
  endsWith p s = true -> exists r, s = r ++ p.
Proof.
  unfold endsWith. intros H. apply startsWith_inv in H as [r Hr].
  exists (rev r). rewrite <- (rev_involutive s), Hr, rev_app_distr.
  rewrite rev_involutive. reflexivity.
Qed.

Lemma includes_tail p c r : includes p (c :: r) = false -> includes p r = false.
Proof. simpl. intros H. apply orb_false_iff in H as [_ H]. exact H. Qed.

Lemma includes_head p s : includes p s = false -> startsWith p s = false.
Proof.
  destruct s; simpl; intros H; apply orb_false_iff in H as [H _]; exact H.
Qed.

(** [slice(0, n)] keeps exactly [n] elements of a longer list. *)
Lemma length_slice_prefix {A} (n : Z) (l : list A) :
  0 <= n <= Z.of_nat (length l) ->
  Z.of_nat (length (slice 0 n l)) = n.
Proof.
  intros Hn. unfold slice, rel_index.
  assert (H0 : (0 <? 0) = false) by reflexivity. rewrite H0.
  destruct (n <? 0) eqn:Hneg; [apply Z.ltb_lt in Hneg; lia|].
  rewrite !Z.min_l by lia. simpl Z.to_nat. rewrite drop_0.
  rewrite length_take. lia.
Qed.

Lemma code_eqb_sym a b : code_eqb a b = code_eqb b a.
Proof. apply N.eqb_sym. Qed.

Lemma leading_ellipses_one t :
  startsWith [ELLIPSIS] t = true <-> (1 <= leading_ellipses t)%nat.
Proof.
  destruct t as [|c t]; cbn [startsWith leading_ellipses].
  - split; [discriminate|lia].
  - rewrite (code_eqb_sym ELLIPSIS c), andb_true_r.
    destruct (code_eqb c ELLIPSIS); split; try lia; try discriminate; auto.
Qed.

Lemma leading_ellipses_two t :
  startsWith [ELLIPSIS; ELLIPSIS] t = true <-> (2 <= leading_ellipses t)%nat.
Proof.
  destruct t as [|c [|d t]]; cbn [startsWith leading_ellipses].
  - split; [discriminate|lia].
  - rewrite (code_eqb_sym ELLIPSIS c). destruct (code_eqb c ELLIPSIS); cbn [andb];
      split; try lia; discriminate.
  - rewrite (code_eqb_sym ELLIPSIS c), (code_eqb_sym ELLIPSIS d), andb_true_r.
    destruct (code_eqb c ELLIPSIS), (code_eqb d ELLIPSIS); cbn [andb];
      split; try lia; try discriminate; auto.
Qed.

Lemma lit_ellipsis : lit "…" = [ELLIPSIS].
Proof. reflexivity. Qed.

Lemma lit_ellipsis2 : lit "……" = [ELLIPSIS; ELLIPSIS].
Proof. reflexivity. Qed.

Lemma endsWith_one s :
  endsWith (lit "…") s = true <-> (1 <= trailing_ellipses s)%nat.
Proof. rewrite lit_ellipsis. apply leading_ellipses_one. Qed.

Lemma endsWith_two s :
  endsWith (lit "……") s = true <-> (2 <= trailing_ellipses s)%nat.
Proof. rewrite lit_ellipsis2. apply leading_ellipses_two. Qed.

Lemma trailing_ellipses_snoc s :
  trailing_ellipses (s ++ [ELLIPSIS]) = S (trailing_ellipses s).
Proof.
  unfold trailing_ellipses. rewrite rev_app_distr.
  cbn [rev app leading_ellipses]. reflexivity.
Qed.

End StringFacts.

(** ** The ellipsis rule *)

Section Ellipsis.

Lemma append_ellipsis_cases s :
  append_ellipsis true s =
    if (2 <=? trailing_ellipses s)%nat then s
    else if (1 <=? trailing_ellipses s)%nat then s ++ [ELLIPSIS]
    else s ++ [ELLIPSIS; ELLIPSIS].
Proof.
  unfold append_ellipsis.
  destruct (endsWith (lit "……") s) eqn:H2; cbn [andb negb].
  - apply endsWith_two in H2. apply Nat.leb_le in H2. rewrite H2. reflexivity.
  - assert (H2' : (2 <=? trailing_ellipses s)%nat = false).
    { apply not_true_is_false. intros H. apply Nat.leb_le, endsWith_two in H. congruence. }
    rewrite H2'.
    destruct (endsWith (lit "…") s) eqn:H1.
    + apply endsWith_one in H1. apply Nat.leb_le in H1. rewrite H1. reflexivity.
    + assert (H1' : (1 <=? trailing_ellipses s)%nat = false).
      { apply not_true_is_false. intros H. apply Nat.leb_le, endsWith_one in H. congruence. }
      rewrite H1'. reflexivity.
Qed.

Lemma trailing_append_ellipsis s :
  trailing_ellipses (append_ellipsis true s) = Nat.max 2 (trailing_ellipses s).
Proof.
  rewrite append_ellipsis_cases.
  destruct (2 <=? trailing_ellipses s)%nat eqn:H2.
  - apply Nat.leb_le in H2. lia.
  - apply Nat.leb_gt in H2.
    destruct (1 <=? trailing_ellipses s)%nat eqn:H1.
    + apply Nat.leb_le in H1. rewrite trailing_ellipses_snoc. lia.
    + apply Nat.leb_gt in H1.
      change (s ++ [ELLIPSIS; ELLIPSIS]) with (s ++ [ELLIPSIS] ++ [ELLIPSIS]).
      rewrite app_assoc, !trailing_ellipses_snoc. lia.
Qed.

Lemma length_append_ellipsis trimmed s :
  (length (append_ellipsis trimmed s) <= length s + 2)%nat.
Proof.
  unfold append_ellipsis.
  destruct (trimmed && negb (endsWith (lit "……") s)); [|lia].
  destruct (endsWith (lit "…") s); rewrite length_app; simpl; lia.
Qed.

End Ellipsis.

(** ** formatAnswer *)

Section FormatAnswer.

Lemma lit_break : lit "$n" = [DOLLAR; LOWER_N].
Proof. reflexivity. Qed.

Example formatAnswer_first_line :
  formatAnswer (lit "he[CQ:image,file=1]llo  $nmore") Fixtures.plain_config
  = lit "he[图片]llo……".
Proof. vm_compute. reflexivity. Qed.

Example formatAnswer_cut_at_limit :
  formatAnswer (lit "abcdef…") (Fixtures.config_max 3) = lit "abc……"
  /\ formatAnswer (lit "ab…def") (Fixtures.config_max 3) = lit "ab……"
  /\ formatAnswer (lit "a……def") (Fixtures.config_max 3) = lit "a……"
  /\ formatAnswer (lit "[CQ:image,]") Fixtures.plain_config = lit "[CQ:image,]".
Proof. repeat split; vm_compute; reflexivity. Qed.

Lemma split_first_none s :
  includes [LF] s = false -> includes (lit "$n") s = false ->
  split_first s = None.
Proof.
  rewrite lit_break.
  induction s as [|c r IH]; intros Hlf Hdn; [reflexivity|].
  cbn [split_first].
  assert (Hb : break_at (c :: r) = false).
  { pose proof (includes_head _ _ Hlf) as H1.
    pose proof (includes_head _ _ Hdn) as H2.
    pose proof (includes_head _ _ (includes_tail _ _ _ Hlf)) as H3.
    cbn [startsWith] in H1, H2. rewrite andb_true_r in H1.
    rewrite (code_eqb_sym LF c) in H1. rewrite (code_eqb_sym DOLLAR c) in H2.
    unfold break_at. rewrite H1. cbn [orb].
    destruct r as [|d r'].
    - rewrite !andb_false_r. reflexivity.
    - cbn [startsWith] in H2, H3. rewrite andb_true_r in H2, H3.
      rewrite (code_eqb_sym LF d) in H3. rewrite (code_eqb_sym LOWER_N d) in H2.
      rewrite H3, andb_false_r. cbn [orb]. exact H2. }
  rewrite Hb, IH; [reflexivity| |].
  - eapply includes_tail; eassumption.
  - eapply includes_tail; eassumption.
Qed.

Lemma replace_images_from_plain fuel s :
  has_image_marker s = false -> replace_images_from fuel s = s.
Proof.
  revert fuel. induction s as [|c r IH]; intros fuel H.
  - destruct fuel; reflexivity.
  - destruct fuel as [|fuel]; [reflexivity|].
    cbn [has_image_marker] in H. apply orb_false_iff in H as [Hhere Hrest].
    cbn [replace_images_from].
    destruct (image_at (c :: r)) as [rest|] eqn:Hat.
    + apply bool_decide_eq_false in Hhere. exfalso. apply Hhere. eauto.
    + rewrite IH by assumption. reflexivity.
Qed.

(** What the matcher accepts is an occurrence of [[CQ:image,...]]: the
    prefix, a non-empty body without a closing bracket, and the bracket. *)
Lemma image_at_spec s rest :
  image_at s = Some rest <->
  exists body, body <> [] /\ (RBRACKET ∉ body)
               /\ s = image_prefix ++ body ++ RBRACKET :: rest.
Proof.
  assert (Hspan : forall t body tl,
    span_not_bracket t = (body, tl) ->
    t = body ++ tl /\ (RBRACKET ∉ body) /\
    (tl = [] \/ exists tl', tl = RBRACKET :: tl')).
  { induction t as [|c t IH]; intros body tl H; cbn [span_not_bracket] in H.
    - inversion H. split; [reflexivity|]. split; [apply not_elem_of_nil|]. auto.
    - destruct (code_eqb c RBRACKET) eqn:Hc.
      + inversion H. apply code_eqb_eq in Hc. subst.
        split; [reflexivity|]. split; [apply not_elem_of_nil|]. eauto.
      + destruct (span_not_bracket t) as [b tl0] eqn:Hs. inversion H. subst.
        destruct (IH _ _ eq_refl) as (-> & Hnot & Htl).
        split; [reflexivity|]. split; [|exact Htl].
        intros Hin. apply elem_of_cons in Hin as [Heq|Hin]; [|tauto].
        subst c. rewrite (proj2 (code_eqb_eq _ _) eq_refl) in Hc. discriminate. }
  assert (Hspan' : forall body tl, RBRACKET ∉ body ->
    span_not_bracket (body ++ RBRACKET :: tl) = (body, RBRACKET :: tl)).
  { induction body as [|c body IH]; intros tl Hnot; cbn [app span_not_bracket].
    - rewrite (proj2 (code_eqb_eq _ _) eq_refl). reflexivity.
    - destruct (code_eqb c RBRACKET) eqn:Hc.
      + apply code_eqb_eq in Hc. subst. exfalso. apply Hnot. left.
      + rewrite IH; [reflexivity|]. intros Hin. apply Hnot. right. exact Hin. }
  unfold image_at. split.
  - destruct (startsWith image_prefix s) eqn:Hp; [|discriminate].
    apply startsWith_inv in Hp as [t ->].
    rewrite drop_app_length.
    destruct (span_not_bracket t) as [body tl] eqn:Hs.
    destruct (Hspan _ _ _ Hs) as (-> & Hnot & Htl).
    destruct body as [|b body]; [discriminate|].
    destruct tl as [|c tl]; [discriminate|].
    intros H. inversion H. subst.
    destruct Htl as [Htl|[tl' Htl]]; [discriminate|]. inversion Htl. subst.
    exists (b :: body). split; [discriminate|]. split; [assumption|reflexivity].
  - intros (body & Hne & Hnot & ->).
    rewrite startsWith_app, drop_app_length, Hspan' by assumption.
    destruct body; [congruence|reflexivity].
Qed.

Lemma image_at_shorter (s rest : jsstring) :
  image_at s = Some rest -> (length rest < length s)%nat.
Proof.
  intros H. apply image_at_spec in H as (body & _ & _ & ->).
  rewrite !length_app. cbn [length]. lia.
Qed.

(** The bound of the scan is never reached: any bound from the length of
    the string on gives the same result. *)
Lemma replace_images_from_enough (s : jsstring) (fuel : nat) :
  (length s <= fuel)%nat ->
  replace_images_from fuel s = replace_images s.
Proof.
  unfold replace_images.
  assert (H : forall n s fuel fuel',
    (length s <= n)%nat -> (length s <= fuel)%nat -> (length s <= fuel')%nat ->
    replace_images_from fuel s = replace_images_from fuel' s).
  { clear. induction n as [|n IH]; intros s fuel fuel' Hn Hf Hf'.
    - destruct s; [|cbn [length] in Hn; lia]. destruct fuel, fuel'; reflexivity.
    - destruct s as [|c r]; [destruct fuel, fuel'; reflexivity|].
      cbn [length] in *.
      destruct fuel as [|fuel]; [lia|]. destruct fuel' as [|fuel']; [lia|].
      cbn [replace_images_from].
      destruct (image_at (c :: r)) as [rest|] eqn:Hat.
      + apply image_at_shorter in Hat. cbn [length] in Hat.
        f_equal. apply IH; lia.
      + f_equal. apply IH; lia. }
  intros Hf. apply (H (length s)); lia.
Qed.

(** C7: a source with no line-break marker (no newline, no "$n"), no
    image marker and at most [maxAnswerLength] code units (100 when the
    option is not configured) is returned unchanged by [formatAnswer]. *)
Theorem formatAnswer_plain_identity (source : jsstring) (config : TeachConfig) :
  includes [LF] source = false ->
  includes (lit "$n") source = false ->
  has_image_marker source = false ->
  Z.of_nat (length source) <= default 100 (maxAnswerLength config) ->
  formatAnswer source config = source.
Proof.
  intros Hlf Hdn Himg Hlen.
  unfold formatAnswer, formatAnswer_cut.
  rewrite (split_first_none _ Hlf Hdn).
  unfold replace_images. rewrite (replace_images_from_plain _ _ Himg).
  destruct (Z.of_nat (length source) >? default 100 (maxAnswerLength config)) eqn:Hgt.
  - apply Z.gtb_lt in Hgt. lia.
  - reflexivity.
Qed.

Lemma formatAnswer_plain_identity_witness :
  formatAnswer (lit "hello [CQ:image] $ n…") Fixtures.plain_config
  = lit "hello [CQ:image] $ n…".
Proof.
  apply formatAnswer_plain_identity; vm_compute; first [reflexivity | discriminate].
Defined.

Lemma cut_length_bound source m :
  0 <= m -> Z.of_nat (length (snd (formatAnswer_cut source m))) <= m.
Proof.
  intros Hm. unfold formatAnswer_cut.
  destruct (match split_first source with
            | Some l0 => (true, trim l0) | None => (false, source) end)
    as [trimmed s].
  destruct (Z.of_nat (length (replace_images s)) >? m) eqn:Hgt; cbn [snd].
  - apply Z.gtb_lt in Hgt. rewrite length_slice_prefix; lia.
  - rewrite Z.gtb_ltb in Hgt. apply Z.ltb_ge in Hgt. exact Hgt.
Qed.

(** C8: the ellipsis rule never appends to a string that already ends
    with the marker "……", completes a single trailing "…" with one more,
    and appends "……" otherwise; so whenever truncation occurred the result
    of [formatAnswer] ends with "……", the rule is idempotent, and the
    number of trailing ellipsis units of its result is two unless the
    string it was applied to already had more. *)
Theorem ellipsis_never_doubled :
  (forall s, endsWith (lit "……") s = true -> append_ellipsis true s = s)
  /\ (forall s, endsWith (lit "……") s = false -> endsWith (lit "…") s = true ->
        append_ellipsis true s = s ++ lit "…")
  /\ (forall s, endsWith (lit "…") s = false -> append_ellipsis true s = s ++ lit "……")
  /\ (forall s, append_ellipsis false s = s)
  /\ (forall source config,
        fst (formatAnswer_cut source (default 100 (maxAnswerLength config))) = true ->
        endsWith (lit "……") (formatAnswer source config) = true)
  /\ (forall s, append_ellipsis true (append_ellipsis true s) = append_ellipsis true s)
  /\ (forall s, trailing_ellipses (append_ellipsis true s)
                = Nat.max 2 (trailing_ellipses s)).
Proof.
  assert (Hends : forall s, endsWith (lit "……") (append_ellipsis true s) = true).
  { intros s. apply endsWith_two. rewrite trailing_append_ellipsis. lia. }
  split; [|split; [|split; [|split; [|split; [|split]]]]].
  - intros s H. unfold append_ellipsis. rewrite H. reflexivity.
  - intros s H2 H1. unfold append_ellipsis. rewrite H2, H1. reflexivity.
  - intros s H1. unfold append_ellipsis. rewrite H1.
    destruct (endsWith (lit "……") s) eqn:H2; [|reflexivity].
    apply endsWith_two in H2.
    assert (Hone : endsWith (lit "…") s = true) by (apply endsWith_one; lia).
    congruence.
  - reflexivity.
  - intros source config Ht. unfold formatAnswer.
    destruct (formatAnswer_cut source (default 100 (maxAnswerLength config)))
      as [trimmed s]. cbn [fst] in Ht. subst trimmed. apply Hends.
  - intros s. unfold append_ellipsis at 1. rewrite Hends. reflexivity.
  - apply trailing_append_ellipsis.
Qed.

Lemma ellipsis_never_doubled_witness :
  append_ellipsis true (lit "好……") = lit "好……"
  /\ append_ellipsis true (lit "好…") = lit "好…" ++ lit "…"
  /\ append_ellipsis true (lit "好") = lit "好" ++ lit "……"
  /\ endsWith (lit "……") (formatAnswer (lit "好…$n好") Fixtures.plain_config) = true.
Proof.
  destruct ellipsis_never_doubled as (H2 & H1 & H0 & _ & Hf & _).
  split; [apply H2; reflexivity|].
  split; [apply H1; reflexivity|].
  split; [apply H0; reflexivity|].
  apply Hf. reflexivity.
Defined.

(** C10 (amended): for every source and every configuration whose
    [maxAnswerLength] is not negative, the string that reaches the
    ellipsis rule has at most [maxAnswerLength] code units, the rule adds
    at most two, and so the result of [formatAnswer] has at most
    [maxAnswerLength + 2]. *)
Theorem formatAnswer_length_bound (source : jsstring) (config : TeachConfig) :
  0 <= default 100 (maxAnswerLength config) ->
  Z.of_nat (length (snd (formatAnswer_cut source (default 100 (maxAnswerLength config)))))
    <= default 100 (maxAnswerLength config)
  /\ Z.of_nat (length (formatAnswer source config))
     <= Z.of_nat (length (snd (formatAnswer_cut source
                                 (default 100 (maxAnswerLength config))))) + 2
  /\ Z.of_nat (length (formatAnswer source config))
     <= default 100 (maxAnswerLength config) + 2.
Proof.
  intros Hm.
  pose proof (cut_length_bound source _ Hm) as Hcut.
  assert (Happ : Z.of_nat (length (formatAnswer source config))
     <= Z.of_nat (length (snd (formatAnswer_cut source
                                 (default 100 (maxAnswerLength config))))) + 2).
  { unfold formatAnswer.
    destruct (formatAnswer_cut source (default 100 (maxAnswerLength config)))
      as [trimmed s]. cbn [snd].
    pose proof (length_append_ellipsis trimmed s). lia. }
  split; [exact Hcut|]. split; [exact Happ|]. lia.
Qed.

Lemma formatAnswer_length_bound_witness :
  Z.of_nat (length (formatAnswer (lit "abcdef") (Fixtures.config_max 3))) <= 3 + 2.
Proof.
  apply (formatAnswer_length_bound (lit "abcdef") (Fixtures.config_max 3)).
  vm_compute. discriminate.
Defined.

(** C10 as stated fails for a negative [maxAnswerLength]: [slice(0, -1)]
    drops one code unit only. *)
Lemma formatAnswer_negative_limit :
  formatAnswer (lit "abcdef") (Fixtures.config_max (-1)) = lit "abcde……"
  /\ ~ (Z.of_nat (length (formatAnswer (lit "abcdef") (Fixtures.config_max (-1))))
        <= default 100 (maxAnswerLength (Fixtures.config_max (-1))) + 2).
Proof.
  split; [reflexivity|]. vm_compute. intros H. apply H. reflexivity.
Qed.

End FormatAnswer.

(** ** Pagination *)

Section Pagination.

Lemma rel_index_nonneg len i : 0 <= i -> rel_index len i = Z.min i len.
Proof.
  intros Hi. unfold rel_index.
  destruct (i <? 0) eqn:H; [apply Z.ltb_lt in H; lia|reflexivity].
Qed.


Lemma ceil_div_bounds a b :
  0 < b -> (ceil_div a b - 1) * b < a <= ceil_div a b * b.
Proof.
  intros Hb. unfold ceil_div.
  pose proof (Z.div_mod (- a) b ltac:(lia)) as Hdm.
  pose proof (Z.mod_pos_bound (- a) b Hb) as Hmod.
  nia.
Qed.

Lemma slice_first_page {A} (n : Z) (l : list A) :
  0 <= n <= Z.of_nat (length l) -> slice 0 n l = take (Z.to_nat n) l.
Proof.
  intros Hn. unfold slice. rewrite !rel_index_nonneg by lia.
  rewrite Z.min_l, Z.min_l by lia. rewrite Z.sub_0_r. reflexivity.
Qed.

Lemma slice_last_page {A} (from to : Z) (l : list A) :
  0 <= from <= Z.of_nat (length l) -> Z.of_nat (length l) <= to ->
  slice from to l = drop (Z.to_nat from) l.
Proof.
  intros Hf Ht. unfold slice. rewrite !rel_index_nonneg by lia.
  rewrite (Z.min_l from) by lia.
  apply take_ge. rewrite length_drop. lia.
Qed.

Lemma sendResult_output_paged argv title output suffix :
  default 20 (itemsPerPage (config argv)) <> 0 ->
  default 20 (itemsPerPage (config argv)) < Z.of_nat (length output) ->
  sendResult_output argv title output suffix
  = push_suffix
      ((title ++ lit "（第 " ++ of_Z (default 1 (Options.page (options argv)))
        ++ lit "/"
        ++ of_Z (ceil_div (Z.of_nat (length output))
                          (default 20 (itemsPerPage (config argv))))
        ++ lit " 页）：")
       :: slice ((default 1 (Options.page (options argv)) - 1)
                 * default 20 (itemsPerPage (config argv)))
                (default 1 (Options.page (options argv))
                 * default 20 (itemsPerPage (config argv)))
                output)
      suffix ++ [trailer].
Proof.
  intros Hnz Hlen. unfold sendResult_output, pageCount_text.
  destruct (Z.of_nat (length output) <=? default 20 (itemsPerPage (config argv))) eqn:H.
  - apply Z.leb_le in H. lia.
  - destruct (default 20 (itemsPerPage (config argv)) =? 0) eqn:Hz;
      [apply Z.eqb_eq in Hz; contradiction|reflexivity].
Qed.

(** C5: with 45 lines and [itemsPerPage = 20], page 1 is the header
    naming page 1 of 3, the source lines 1-20 and the trailer, and page 3
    is the header naming page 3 of 3, the source lines 41-45 and the
    trailer (a suffix, when given, stands before the trailer); with
    exactly 20 lines the result is the title header and all the lines,
    with no page numbers and no trailer. *)
Theorem pagination_examples (argv : TeachArgv) (title : jsstring)
    (output : list jsstring) (suffix : option jsstring) :
  default 20 (itemsPerPage (config argv)) = 20 ->
  (length output = 45%nat -> Options.page (options argv) = Some 1 ->
   sendResult_output argv title output suffix
   = push_suffix ((title ++ lit "（第 1/3 页）：") :: take 20 output) suffix
     ++ [trailer])
  /\ (length output = 45%nat -> Options.page (options argv) = Some 3 ->
      sendResult_output argv title output suffix
      = push_suffix ((title ++ lit "（第 3/3 页）：") :: drop 40 output) suffix
        ++ [trailer])
  /\ (length output = 20%nat ->
      sendResult_output argv title output suffix
      = push_suffix ((title ++ lit "：") :: output) suffix).
Proof.
  intros Hsize. split; [|split].
  - intros Hlen Hpage.
    rewrite sendResult_output_paged by (rewrite Hsize, ?Hlen; first [discriminate|reflexivity]).
    rewrite Hsize, Hlen, Hpage. cbn [default].
    rewrite slice_first_page by (rewrite Hlen; split; discriminate). reflexivity.
  - intros Hlen Hpage.
    rewrite sendResult_output_paged by (rewrite Hsize, ?Hlen; first [discriminate|reflexivity]).
    rewrite Hsize, Hlen, Hpage. cbn [default].
    rewrite slice_last_page by (rewrite ?Hlen; try split; discriminate). reflexivity.
  - intros Hlen. unfold sendResult_output. rewrite Hsize, Hlen. reflexivity.
Qed.

Lemma pagination_examples_witness :
  sendResult_output (Fixtures.page_argv (Some 1) (Some 20)) (lit "全部问答如下")
                    (Fixtures.numbered_lines 45) None
  = (lit "全部问答如下（第 1/3 页）：") :: Fixtures.numbered_lines 20 ++ [trailer]
  /\ sendResult_output (Fixtures.page_argv (Some 3) None) (lit "全部问答如下")
                       (Fixtures.numbered_lines 45) None
     = (lit "全部问答如下（第 3/3 页）：")
       :: map lit ["41"; "42"; "43"; "44"; "45"]%string ++ [trailer]
  /\ sendResult_output (Fixtures.page_argv None (Some 20)) (lit "全部问答如下")
                       (Fixtures.numbered_lines 20) None
     = (lit "全部问答如下：") :: Fixtures.numbered_lines 20.
Proof.
  split; [|split].
  - refine (eq_trans
      (proj1 (pagination_examples (Fixtures.page_argv (Some 1) (Some 20))
                (lit "全部问答如下") (Fixtures.numbered_lines 45) None
                eq_refl) eq_refl eq_refl) _).
    vm_compute. reflexivity.
  - refine (eq_trans
      (proj1 (proj2 (pagination_examples (Fixtures.page_argv (Some 3) None)
                (lit "全部问答如下") (Fixtures.numbered_lines 45) None
                eq_refl)) eq_refl eq_refl) _).
    vm_compute. reflexivity.
  - refine (eq_trans
      (proj2 (proj2 (pagination_examples (Fixtures.page_argv None (Some 20))
                (lit "全部问答如下") (Fixtures.numbered_lines 20) None
                eq_refl)) eq_refl) _).
    vm_compute. reflexivity.
Defined.




End Pagination.

(** ** Redirection resolution *)

Section Resolver.

Context (argv : TeachArgv) (test : DialogueTest.t).

Lemma getRedirections_nil (fuel : nat) (st : Resolution) :
  getRedirections argv test (S fuel) [] st = Some ([], st).
Proof. reflexivity. Qed.

Lemma getRedirections_cons (fuel : nat) (d : Dialogue) (rest : list Dialogue)
    (st : Resolution) :
  getRedirections argv test (S fuel) (d :: rest) st =
  match redirect_target (config argv) (answer d) with
  | None =>
    '(rest', st') ← getRedirections argv test (S fuel) rest st;
    Some (d :: rest', st')
  | Some question =>
    if js_in question (questions st) then
      '(rest', st') ← getRedirections argv test (S fuel) rest st;
      Some (d :: rest', st')
    else
      let fetched := getDialogues (ctx argv) (child_test test question) in
      let st1 := {| questions := <[question := fetched]> (questions st);
                    lookups := lookups st ++ [child_test test question] |} in
      '(children, st2) ← getRedirections argv test fuel fetched st1;
      '(rest', st3) ← getRedirections argv test (S fuel) rest st2;
      Some (set_redirections d children :: rest', st3)
  end.
Proof. reflexivity. Qed.

Lemma option_bind_Some {A B} (f : A -> option B) (x : A) :
  (Some x ≫= f) = f x.
Proof. reflexivity. Qed.

Lemma js_in_own (q : jsstring) (m : gmap jsstring (list Dialogue)) :
  is_Some (m !! q) -> js_in q m = true.
Proof. intros [v Hv]. unfold js_in. rewrite Hv. reflexivity. Qed.

Lemma js_in_false (q : jsstring) (m : gmap jsstring (list Dialogue)) :
  js_in q m = false -> m !! q = None.
Proof. unfold js_in. destruct (m !! q); [discriminate|reflexivity]. Qed.

Lemma js_in_mono (q : jsstring) (m m' : gmap jsstring (list Dialogue)) :
  (forall k v, m !! k = Some v -> m' !! k = Some v) ->
  js_in q m = true -> js_in q m' = true.
Proof.
  intros Hsub. unfold js_in. destruct (m !! q) as [v|] eqn:Hq.
  - rewrite (Hsub _ _ Hq). reflexivity.
  - intros ->. destruct (m' !! q); reflexivity.
Qed.

Lemma filter_length_le {A} (P Q : A -> bool) (l : list A) :
  (forall x, P x = true -> Q x = true) ->
  (length (List.filter P l) <= length (List.filter Q l))%nat.
Proof.
  intros HPQ. induction l as [|x l IH]; [reflexivity|].
  cbn [List.filter]. destruct (P x) eqn:HP.
  - rewrite (HPQ _ HP). cbn [length]. lia.
  - destruct (Q x); cbn [length]; lia.
Qed.

Lemma filter_length_lt {A} (P Q : A -> bool) (l : list A) (x : A) :
  (forall y, P y = true -> Q y = true) ->
  x ∈ l -> P x = false -> Q x = true ->
  (length (List.filter P l) < length (List.filter Q l))%nat.
Proof.
  intros HPQ Hin HP HQ. induction l as [|y l IH]; [inversion Hin|].
  cbn [List.filter]. apply elem_of_cons in Hin as [<-|Hin].
  - rewrite HP, HQ. cbn [length].
    pose proof (filter_length_le P Q l HPQ). lia.
  - specialize (IH Hin). destruct (P y) eqn:HPy.
    + rewrite (HPQ _ HPy). cbn [length]. lia.
    + destruct (Q y); cbn [length]; lia.
Qed.

Lemma pending_mono (universe : list Dialogue)
    (m m' : gmap jsstring (list Dialogue)) :
  (forall k v, m !! k = Some v -> m' !! k = Some v) ->
  (pending (config argv) universe m' <= pending (config argv) universe m)%nat.
Proof.
  intros Hsub. unfold pending. apply filter_length_le.
  intros q Hq. apply negb_true_iff in Hq. apply negb_true_iff.
  destruct (js_in q m) eqn:Hm; [|reflexivity].
  rewrite (js_in_mono _ _ _ Hsub Hm) in Hq. discriminate.
Qed.

Lemma pending_insert (universe : list Dialogue)
    (m : gmap jsstring (list Dialogue)) (d : Dialogue) (q : jsstring)
    (v : list Dialogue) :
  d ∈ universe -> redirect_target (config argv) (answer d) = Some q ->
  js_in q m = false ->
  (pending (config argv) universe (<[q := v]> m)
   < pending (config argv) universe m)%nat.
Proof.
  intros Hd Hq Hnew. unfold pending. apply (filter_length_lt _ _ _ q).
  - intros k Hk. apply negb_true_iff in Hk. apply negb_true_iff.
    destruct (js_in k m) eqn:Hm; [|reflexivity].
    rewrite (js_in_mono k m (<[q := v]> m)) in Hk; [discriminate| |exact Hm].
    intros k' v' Hk'. rewrite lookup_insert_ne; [exact Hk'|].
    intros ->. rewrite (js_in_false _ _ Hnew) in Hk'. discriminate.
  - unfold targets. apply list_elem_of_omap. exists d. split; assumption.
  - apply negb_false_iff. apply js_in_own. rewrite lookup_insert_eq. eauto.
  - apply negb_true_iff. exact Hnew.
Qed.

Lemma extends_refl (st : Resolution) : extends st st.
Proof. split; [auto|]. exists []. rewrite app_nil_r. reflexivity. Qed.

Lemma extends_trans (st1 st2 st3 : Resolution) :
  extends st1 st2 -> extends st2 st3 -> extends st1 st3.
Proof.
  intros [H1 [m1 L1]] [H2 [m2 L2]]. split; [auto|].
  exists (m1 ++ m2). rewrite L2, L1, app_assoc. reflexivity.
Qed.

(** Line 129 on a question text that is not in [questions] yet. *)
Lemma lookup_step (root : jsstring) (st : Resolution) (q : jsstring) :
  resolver_inv root test st -> js_in q (questions st) = false ->
  let st1 := {| questions := <[q := getDialogues (ctx argv) (child_test test q)]>
                               (questions st);
                lookups := lookups st ++ [child_test test q] |} in
  resolver_inv root test st1 /\ extends st st1.
Proof.
  intros (Hnd & Hall & Hdom & Hroot & Hsize) Hnew st1.
  pose proof (js_in_false _ _ Hnew) as Hnone.
  assert (Hfresh : q <> root /\ Some q ∉ asked_questions st).
  { split.
    - intros ->. assert (His : is_Some (questions st !! root)) by (apply Hdom; auto).
      rewrite Hnone in His. destruct His; discriminate.
    - intros Hin. assert (His : is_Some (questions st !! q)) by (apply Hdom; auto).
      rewrite Hnone in His. destruct His; discriminate. }
  destruct Hfresh as [Hqr Hqa].
  assert (Hasked : asked_questions st1 = asked_questions st ++ [Some q]).
  { unfold asked_questions, st1. cbn [lookups]. rewrite map_app. reflexivity. }
  split.
  - unfold resolver_inv. rewrite Hasked. repeat apply conj.
    + apply NoDup_app. split; [exact Hnd|]. split.
      * intros x Hx Hx'. apply list_elem_of_singleton in Hx'. subst x. tauto.
      * apply NoDup_singleton.
    + unfold st1. cbn [lookups]. apply Forall_app. split; [exact Hall|].
      apply Forall_singleton. eauto.
    + intros k. unfold st1. cbn [questions].
      rewrite elem_of_app, list_elem_of_singleton.
      destruct (decide (k = q)) as [->|Hne].
      * rewrite lookup_insert_eq. split; [auto|eauto].
      * rewrite lookup_insert_ne by congruence. rewrite Hdom.
        split; [tauto|]. intros [H|[H|H]]; [tauto|tauto|congruence].
    + rewrite elem_of_app, list_elem_of_singleton.
      intros [H|H]; [tauto|congruence].
    + unfold st1. cbn [questions lookups].
      rewrite map_size_insert_None by exact Hnone.
      rewrite Hsize, length_app. cbn [length]. lia.
  - split.
    + intros k v Hk. unfold st1. cbn [questions].
      rewrite lookup_insert_ne; [exact Hk|]. intros ->. congruence.
    + exists [child_test test q]. reflexivity.
Qed.

Lemma same_record_refl (d : Dialogue) : same_record d d.
Proof. repeat split. Qed.

Lemma same_record_set (d : Dialogue) (children : list Dialogue) :
  same_record (set_redirections d children) d.
Proof. repeat split. Qed.

(** With more fuel than pending targets the resolver returns, keeps its
    invariant, only grows its state and only annotates. *)
Lemma getRedirections_total (root : jsstring) (universe : list Dialogue) :
  store_within (ctx argv) universe ->
  forall (fuel : nat) (dialogues : list Dialogue) (st : Resolution),
    (pending (config argv) universe (questions st) < fuel)%nat ->
    dialogues ⊆ universe ->
    resolver_inv root test st ->
    exists res st',
      getRedirections argv test fuel dialogues st = Some (res, st')
      /\ resolver_inv root test st' /\ extends st st'
      /\ Forall2 same_record res dialogues.
Proof.
  intros Hstore. induction fuel as [|fuel IHfuel]; [intros; lia|].
  induction dialogues as [|d rest IHrest]; intros st Hfuel Hsub Hinv.
  - exists [], st. rewrite getRedirections_nil.
    split; [reflexivity|]. split; [assumption|].
    split; [apply extends_refl|constructor].
  - assert (Hd : d ∈ universe) by (apply Hsub; left).
    assert (Hrest : rest ⊆ universe).
    { intros x Hx. apply Hsub. right. exact Hx. }
    rewrite getRedirections_cons.
    assert (Hskip : exists res st',
      ('(rest', st') ← getRedirections argv test (S fuel) rest st;
       Some (d :: rest', st')) = Some (res, st')
      /\ resolver_inv root test st' /\ extends st st'
      /\ Forall2 same_record res (d :: rest)).
    { destruct (IHrest st Hfuel Hrest Hinv) as (res & st' & Hrun & Hinv' & Hext & Hsame).
      exists (d :: res), st'. rewrite Hrun, option_bind_Some. cbv beta iota.
      split; [reflexivity|]. split; [assumption|]. split; [assumption|].
      constructor; [apply same_record_refl|assumption]. }
    destruct (redirect_target (config argv) (answer d)) as [q|] eqn:Htarget;
      [|exact Hskip].
    destruct (js_in q (questions st)) eqn:Hin; [exact Hskip|].
    clear Hskip. cbv zeta.
    destruct (lookup_step root st q Hinv Hin) as [Hinv1 Hext1].
    set (st1 := {| questions := <[q := getDialogues (ctx argv) (child_test test q)]>
                                  (questions st);
                   lookups := lookups st ++ [child_test test q] |}) in *.
    assert (Hless : (pending (config argv) universe (questions st1)
                     < pending (config argv) universe (questions st))%nat).
    { unfold st1. cbn [questions]. eapply pending_insert; eassumption. }
    assert (Hfetched : getDialogues (ctx argv) (child_test test q) ⊆ universe).
    { intros x Hx. eapply Hstore. exact Hx. }
    destruct (IHfuel _ st1 ltac:(lia) Hfetched Hinv1)
      as (children & st2 & Hrun2 & Hinv2 & Hext2 & _).
    rewrite Hrun2, option_bind_Some. cbv beta iota.
    assert (Hfuel2 : (pending (config argv) universe (questions st2) < S fuel)%nat).
    { pose proof (pending_mono universe _ _ (proj1 Hext2)). lia. }
    destruct (IHrest st2 Hfuel2 Hrest Hinv2)
      as (res & st3 & Hrun3 & Hinv3 & Hext3 & Hsame3).
    rewrite Hrun3, option_bind_Some. cbv beta iota.
    exists (set_redirections d children :: res), st3.
    split; [reflexivity|]. split; [assumption|]. split.
    + eapply extends_trans; [exact Hext1|].
      eapply extends_trans; eassumption.
    + constructor; [apply same_record_set|assumption].
Qed.

(** More fuel does not change a result. *)
Lemma getRedirections_fuel_S (fuel : nat) :
  forall (dialogues : list Dialogue) (st : Resolution) r,
    getRedirections argv test fuel dialogues st = Some r ->
    getRedirections argv test (S fuel) dialogues st = Some r.
Proof.
  induction fuel as [|fuel IHfuel]; [discriminate|].
  induction dialogues as [|d rest IHrest]; intros st r H.
  - rewrite getRedirections_nil in *. exact H.
  - rewrite getRedirections_cons in H. rewrite getRedirections_cons.
    assert (Hskip : forall r,
      ('(rest', st') ← getRedirections argv test (S fuel) rest st;
       Some (d :: rest', st')) = Some r ->
      ('(rest', st') ← getRedirections argv test (S (S fuel)) rest st;
       Some (d :: rest', st')) = Some r).
    { intros r0 H0.
      destruct (getRedirections argv test (S fuel) rest st) as [[res st']|] eqn:Hrun;
        [|discriminate].
      rewrite (IHrest _ _ Hrun). exact H0. }
    destruct (redirect_target (config argv) (answer d)) as [q|]; [|auto].
    destruct (js_in q (questions st)); [auto|].
    cbv zeta in *.
    destruct (getRedirections argv test fuel _ _) as [[children st2]|] eqn:Hrun2;
      [|discriminate].
    rewrite (IHfuel _ _ _ Hrun2). rewrite option_bind_Some in *. cbv beta iota in *.
    destruct (getRedirections argv test (S fuel) rest st2) as [[res st3]|] eqn:Hrun3;
      [|discriminate].
    rewrite (IHrest _ _ Hrun3). exact H.
Qed.

Lemma getRedirections_fuel_le (fuel fuel' : nat) (dialogues : list Dialogue)
    (st : Resolution) r :
  (fuel <= fuel')%nat ->
  getRedirections argv test fuel dialogues st = Some r ->
  getRedirections argv test fuel' dialogues st = Some r.
Proof.
  induction 1 as [|fuel' _ IH]; [auto|].
  intros H. apply getRedirections_fuel_S. auto.
Qed.

Lemma pending_bound (universe : list Dialogue)
    (m : gmap jsstring (list Dialogue)) :
  (pending (config argv) universe m <= length universe)%nat.
Proof.
  unfold pending, targets.
  etransitivity; [apply List.filter_length_le|].
  induction universe as [|d u IH]; [reflexivity|].
  cbn [omap list_omap]. destruct (redirect_target (config argv) (answer d));
    cbn [length]; lia.
Qed.

Lemma resolver_inv_init (dialogues : list Dialogue) :
  resolver_inv (of_opt (DialogueTest.question test)) test
    {| questions := {[ of_opt (DialogueTest.question test) := dialogues ]};
       lookups := [] |}.
Proof.
  unfold resolver_inv, asked_questions. cbn [lookups questions map length].
  repeat apply conj.
  - apply NoDup_nil_2.
  - constructor.
  - intros q. rewrite lookup_singleton_is_Some. split.
    + intros ->. auto.
    + intros [->|H]; [reflexivity|]. inversion H.
  - apply not_elem_of_nil.
  - apply map_size_singleton.
Qed.

(** [resolve] returns for every bound above the size of the store and the
    root result set, always with the same result. *)
Lemma resolve_total (dialogues store : list Dialogue) :
  store_within (ctx argv) store ->
  exists res st,
    (forall fuel, (length (dialogues ++ store) < fuel)%nat ->
                  resolve argv test fuel dialogues = Some (res, st))
    /\ resolver_inv (of_opt (DialogueTest.question test)) test st
    /\ Forall2 same_record res dialogues.
Proof.
  intros Hstore.
  assert (Hstore' : store_within (ctx argv) (dialogues ++ store)).
  { intros t d Hd. apply elem_of_app. right. eapply Hstore. exact Hd. }
  destruct (getRedirections_total (of_opt (DialogueTest.question test))
              (dialogues ++ store) Hstore'
              (S (length (dialogues ++ store))) dialogues
              {| questions := {[ of_opt (DialogueTest.question test) := dialogues ]};
                 lookups := [] |})
    as (res & st & Hrun & Hinv & _ & Hsame).
  - pose proof (pending_bound (dialogues ++ store)
                  {[ of_opt (DialogueTest.question test) := dialogues ]}).
    cbn [questions]. lia.
  - intros x Hx. apply elem_of_app. left. exact Hx.
  - apply resolver_inv_init.
  - exists res, st. split; [|split; assumption].
    intros fuel Hfuel. unfold resolve.
    eapply getRedirections_fuel_le; [|exact Hrun]. lia.
Qed.

End Resolver.

Section ResolverClaims.

Lemma table_store_within (table : list Dialogue) :
  store_within (Fixtures.table_context table) table.
Proof.
  intros t d Hd. cbn [Fixtures.table_context getDialogues] in Hd.
  apply list_elem_of_In in Hd. apply filter_In in Hd as [Hd _].
  apply list_elem_of_In. exact Hd.
Qed.

(** C1: over a store of finitely many dialogues the resolution returns
    for every bound above the size of the store and of the root result
    set, cyclic redirects or not; no question text is looked up twice,
    the root question is never looked up, every lookup is a child test,
    and [questions] holds the root question and one entry per lookup. *)
Theorem resolution_terminates_one_lookup_per_question
    (argv : TeachArgv) (test : DialogueTest.t) (dialogues store : list Dialogue) :
  store_within (ctx argv) store ->
  exists annotated st,
    (forall fuel, (length (dialogues ++ store) < fuel)%nat ->
                  resolve argv test fuel dialogues = Some (annotated, st))
    /\ NoDup (asked_questions st)
    /\ (Some (of_opt (DialogueTest.question test)) ∉ asked_questions st)
    /\ Forall (fun t => exists q, t = child_test test q) (lookups st)
    /\ (forall q, is_Some (questions st !! q)
                   <-> q = of_opt (DialogueTest.question test)
                       \/ Some q ∈ asked_questions st)
    /\ size (questions st) = S (length (lookups st)).
Proof.
  intros Hstore.
  destruct (resolve_total argv test dialogues store Hstore)
    as (res & st & Hrun & (Hnd & Hall & Hdom & Hroot & Hsize) & _).
  exists res, st. repeat apply conj; assumption.
Qed.

Lemma resolution_terminates_one_lookup_per_question_witness :
  exists annotated st,
    (forall fuel, (3 < fuel)%nat ->
       resolve Fixtures.cycle_argv Fixtures.cycle_test fuel [Fixtures.dA]
       = Some (annotated, st))
    /\ NoDup (asked_questions st)
    /\ size (questions st) = S (length (lookups st)).
Proof.
  destruct (resolution_terminates_one_lookup_per_question
              Fixtures.cycle_argv Fixtures.cycle_test [Fixtures.dA]
              [Fixtures.dA; Fixtures.dB]
              (table_store_within [Fixtures.dA; Fixtures.dB]))
    as (annotated & st & Hrun & Hnd & _ & _ & _ & Hsize).
  exists annotated, st. split; [exact Hrun|]. split; assumption.
Defined.

(** The cycle: A redirects to B's question and B back to A's.  One
    lookup, for "B"; [dB] is visited once and left without annotation. *)
Example resolve_cycle :
  exists st,
    resolve Fixtures.cycle_argv Fixtures.cycle_test 2 [Fixtures.dA]
    = Some ([set_redirections Fixtures.dA [Fixtures.dB]], st)
    /\ lookups st = [child_test Fixtures.cycle_test (lit "B")]
    /\ map fst (map_to_list (questions st)) ≡ₚ [lit "A"; lit "B"].
Proof.
  eexists. split; [vm_compute; reflexivity|]. split; [reflexivity|].
  vm_compute. apply Permutation_swap.
Qed.

(** C3 (amended): a dialogue whose answer redirects to a question text
    that [questions] already holds (the root question included) is
    skipped: no lookup is issued, the question is not entered again, and
    the dialogue receives no [_redirections]; the loop goes on with the
    rest of the array in the same state. *)
Theorem present_question_is_skipped
    (argv : TeachArgv) (test : DialogueTest.t) (fuel : nat)
    (d : Dialogue) (rest : list Dialogue) (st : Resolution) (q : jsstring) :
  redirect_target (config argv) (answer d) = Some q ->
  (is_Some (questions st !! q) ->
   getRedirections argv test (S fuel) [d] st = Some ([d], st)
   /\ getRedirections argv test (S fuel) (d :: rest) st
      = ('(rest', st') ← getRedirections argv test (S fuel) rest st;
         Some (d :: rest', st')))
  /\ (q = of_opt (DialogueTest.question test) ->
      resolve argv test (S fuel) [d]
      = Some ([d], {| questions := {[ q := [d] ]}; lookups := [] |})).
Proof.
  intros Htarget. split.
  - intros Hin. apply js_in_own in Hin.
    split; rewrite getRedirections_cons, Htarget, Hin; reflexivity.
  - intros ->. unfold resolve.
    rewrite getRedirections_cons, Htarget. cbn [questions].
    rewrite js_in_own by (rewrite lookup_singleton_eq; eauto). reflexivity.
Qed.

Lemma present_question_is_skipped_witness :
  getRedirections Fixtures.cycle_argv Fixtures.cycle_test 1 [Fixtures.dB]
                  Fixtures.cycle_state
  = Some ([Fixtures.dB], Fixtures.cycle_state).
Proof.
  apply (proj1 (present_question_is_skipped Fixtures.cycle_argv Fixtures.cycle_test 0
                  Fixtures.dB [] Fixtures.cycle_state (lit "A") eq_refl)).
  exists [Fixtures.dA]. vm_compute. reflexivity.
Defined.

(** C3 as stated fails: [dB] redirects to "A", which [questions] holds
    with the list [[dA]], and the resolver leaves [dB] without
    [_redirections] instead of giving it that list. *)
Lemma recorded_list_not_reused :
  redirect_target (config Fixtures.cycle_argv) (answer Fixtures.dB) = Some (lit "A")
  /\ questions Fixtures.cycle_state !! lit "A" = Some [Fixtures.dA]
  /\ getRedirections Fixtures.cycle_argv Fixtures.cycle_test 1 [Fixtures.dB]
                     Fixtures.cycle_state
     = Some ([Fixtures.dB], Fixtures.cycle_state)
  /\ _redirections Fixtures.dB = None
  /\ _redirections Fixtures.dB <> Some [Fixtures.dA].
Proof.
  split; [reflexivity|]. split; [vm_compute; reflexivity|].
  split; [vm_compute; reflexivity|]. split; [reflexivity|discriminate].
Qed.

Lemma slice_embedded (t : jsstring) :
  slice 11 (-1) (redirect_prefix ++ t ++ lit "}") = t.
Proof.
  unfold slice, rel_index.
  change (11 <? 0) with false. change (-1 <? 0) with true. cbv iota.
  rewrite !length_app.
  change (length redirect_prefix) with 11%nat. change (length (lit "}")) with 1%nat.
  rewrite Z.min_l by lia. rewrite Z.max_l by lia.
  replace (Z.to_nat (Z.of_nat (11 + (length t + 1)) + -1 - 11)) with (length t) by lia.
  change (Z.to_nat 11) with (length redirect_prefix).
  rewrite drop_app_length. rewrite take_app_length. reflexivity.
Qed.

(** C4 (amended): a dialogue is treated as a redirect exactly when its
    answer, as stored, starts with the eleven code units of
    [${dialogue ]; the question text is [answer.slice(11, -1)] with the
    leading white space trimmed, passed through [_stripQuestion], which
    for an answer [${dialogue t}] is the text [t] so treated; and the
    child lookup keeps the test's answer and other constraints, sets
    [keyword] to false and [question] to that text. *)
Theorem redirect_detection_and_child_test (argv : TeachArgv) (test : DialogueTest.t) :
  (forall answer, is_Some (redirect_target (config argv) answer)
                  <-> startsWith redirect_prefix answer = true)
  /\ (forall answer, startsWith redirect_prefix answer = true ->
        redirect_target (config argv) answer
        = Some (_stripQuestion (config argv) (trimStart (slice 11 (-1) answer))))
  /\ (forall t, redirect_target (config argv) (redirect_prefix ++ t ++ lit "}")
                = Some (_stripQuestion (config argv) (trimStart t)))
  /\ (forall fuel d st,
        redirect_target (config argv) (answer d) = None ->
        getRedirections argv test (S fuel) [d] st = Some ([d], st))
  /\ (forall fuel d st q,
        redirect_target (config argv) (answer d) = Some q ->
        js_in q (questions st) = false ->
        getRedirections argv test (S fuel) [d] st
        = ('(children, st2) ←
             getRedirections argv test fuel
               (getDialogues (ctx argv) (child_test test q))
               {| questions := <[q := getDialogues (ctx argv) (child_test test q)]>
                                 (questions st);
                  lookups := lookups st ++ [child_test test q] |};
           Some ([set_redirections d children], st2)))
  /\ (forall q, DialogueTest.question (child_test test q) = Some q
                /\ DialogueTest.keyword (child_test test q) = Some false
                /\ DialogueTest.answer (child_test test q) = DialogueTest.answer test
                /\ DialogueTest.others (child_test test q) = DialogueTest.others test).
Proof.
  split; [|split; [|split; [|split; [|split]]]].
  - intros a. unfold redirect_target.
    destruct (startsWith redirect_prefix a); split; intros H;
      try reflexivity; try discriminate; eauto.
    destruct H; discriminate.
  - intros a H. unfold redirect_target. rewrite H. reflexivity.
  - intros t. unfold redirect_target. rewrite startsWith_app, slice_embedded.
    reflexivity.
  - intros fuel d st H. rewrite getRedirections_cons, H. reflexivity.
  - intros fuel d st q H Hin. rewrite getRedirections_cons, H, Hin. cbv zeta.
    destruct (getRedirections argv test fuel _ _) as [[children st2]|]; reflexivity.
  - intros q. repeat split.
Qed.

Lemma redirect_detection_and_child_test_witness :
  redirect_target Fixtures.plain_config (lit "${dialogue  B}") = Some (lit "B")
  /\ getRedirections Fixtures.cycle_argv Fixtures.cycle_test 1 [Fixtures.dX]
                     Fixtures.cycle_state
     = Some ([Fixtures.dX], Fixtures.cycle_state).
Proof.
  destruct (redirect_detection_and_child_test Fixtures.cycle_argv Fixtures.cycle_test)
    as (_ & Hslice & _ & Hplain & _).
  split.
  - refine (eq_trans (Hslice (lit "${dialogue  B}") eq_refl) _). reflexivity.
  - apply Hplain. reflexivity.
Defined.

(** C4 as stated fails in both directions: trimming is not applied before
    the test, and the closing brace is not looked for. *)
Lemma redirect_test_is_a_prefix_test :
  (matches_redirect_pattern (answer Fixtures.dSpace) = true
   /\ redirect_target (config Fixtures.prefix_argv) (answer Fixtures.dSpace) = None)
  /\ (matches_redirect_pattern (answer Fixtures.dOpen) = false
      /\ redirect_target (config Fixtures.prefix_argv) (answer Fixtures.dOpen)
         = Some (lit "x"))
  /\ exists st,
       getRedirections Fixtures.prefix_argv Fixtures.cycle_test 2
                       [Fixtures.dSpace; Fixtures.dOpen] Fixtures.cycle_state
       = Some ([Fixtures.dSpace; set_redirections Fixtures.dOpen [Fixtures.dX]], st)
       /\ lookups st = [child_test Fixtures.cycle_test (lit "x")].
Proof.
  split; [split; reflexivity|]. split; [split; reflexivity|].
  eexists. split; [vm_compute; reflexivity|reflexivity].
Qed.

End ResolverClaims.

(** ** Merging *)

Section Merge.

Lemma idMap_get_push_eq (key : jsstring) (n : Z) (idMap : IdMap) :
  idMap_get key (idMap_push key n idMap)
  = Some (default [] (idMap_get key idMap) ++ [n]).
Proof.
  induction idMap as [|[k ids] rest IH]; cbn [idMap_push idMap_get].
  - rewrite decide_True by reflexivity. reflexivity.
  - destruct (decide (k = key)) as [->|Hne]; cbn [idMap_get].
    + rewrite decide_True by reflexivity. reflexivity.
    + rewrite decide_False by assumption. exact IH.
Qed.

Lemma idMap_get_push_ne (key k' : jsstring) (n : Z) (idMap : IdMap) :
  k' <> key -> idMap_get k' (idMap_push key n idMap) = idMap_get k' idMap.
Proof.
  intros Hne. induction idMap as [|[k ids] rest IH]; cbn [idMap_push idMap_get].
  - rewrite decide_False by congruence. reflexivity.
  - destruct (decide (k = key)) as [->|Hk]; cbn [idMap_get].
    + rewrite !decide_False by congruence. reflexivity.
    + destruct (decide (k = k')); [reflexivity|exact IH].
Qed.

Lemma idMap_get_Some_keys (key : jsstring) (idMap : IdMap) :
  is_Some (idMap_get key idMap) <-> key ∈ map fst idMap.
Proof.
  induction idMap as [|[k ids] rest IH]; cbn [idMap_get map fst].
  - split; [intros [? H]; discriminate|intros H; inversion H].
  - rewrite elem_of_cons. destruct (decide (k = key)) as [->|Hne].
    + split; eauto.
    + rewrite IH. split; [auto|]. intros [H|H]; [congruence|exact H].
Qed.

Lemma idMap_push_keys (key : jsstring) (n : Z) (idMap : IdMap) :
  map fst (idMap_push key n idMap)
  = if bool_decide (key ∈ map fst idMap) then map fst idMap
    else map fst idMap ++ [key].
Proof.
  induction idMap as [|[k ids] rest IH]; cbn [idMap_push map fst].
  - rewrite bool_decide_eq_false_2 by apply not_elem_of_nil. reflexivity.
  - destruct (decide (k = key)) as [->|Hne]; cbn [map fst].
    + rewrite bool_decide_eq_true_2 by left. reflexivity.
    + rewrite IH. destruct (bool_decide (key ∈ map fst rest)) eqn:Hin.
      * apply bool_decide_eq_true in Hin.
        rewrite bool_decide_eq_true_2 by (right; exact Hin). reflexivity.
      * apply bool_decide_eq_false in Hin.
        rewrite bool_decide_eq_false_2; [reflexivity|].
        intros H. apply elem_of_cons in H as [H|H]; [congruence|tauto].
Qed.

Lemma idMap_push_NoDup (key : jsstring) (n : Z) (idMap : IdMap) :
  NoDup (map fst idMap) -> NoDup (map fst (idMap_push key n idMap)).
Proof.
  intros Hnd. rewrite idMap_push_keys.
  destruct (bool_decide (key ∈ map fst idMap)) eqn:Hin; [exact Hnd|].
  apply bool_decide_eq_false in Hin.
  apply NoDup_app. split; [exact Hnd|]. split; [|apply NoDup_singleton].
  intros x Hx Hx'. apply list_elem_of_singleton in Hx'. subst. tauto.
Qed.

Lemma group_ids_cons (by_question : bool) (key : jsstring) (d : Dialogue)
    (rest : list Dialogue) :
  group_ids by_question key (d :: rest)
  = (if bool_decide (group_key by_question d = key) then [id d] else [])
    ++ group_ids by_question key rest.
Proof.
  unfold group_ids. cbn [List.filter].
  destruct (bool_decide (group_key by_question d = key)); reflexivity.
Qed.

(** Lines 185-189 collect, for every key, the ids of its dialogues in
    the order of the array, after what [idMap] held before. *)
Lemma collect_ids_spec (by_question : bool) (dialogues : list Dialogue) :
  Forall (fun d => inherited (group_key by_question d) = false) dialogues ->
  forall idMap, NoDup (map fst idMap) ->
  exists idMap',
    collect_ids by_question dialogues idMap = Some idMap'
    /\ NoDup (map fst idMap')
    /\ (forall key, key ∈ map fst idMap'
                    <-> key ∈ map fst idMap
                        \/ key ∈ map (group_key by_question) dialogues)
    /\ (forall key, default [] (idMap_get key idMap')
                    = default [] (idMap_get key idMap)
                      ++ group_ids by_question key dialogues).
Proof.
  induction 1 as [|d rest Hd Hrest IH]; intros idMap Hnd.
  - exists idMap. cbn [collect_ids map]. split; [reflexivity|].
    split; [exact Hnd|]. split.
    + intros key. split; [auto|]. intros [H|H]; [exact H|inversion H].
    + intros key. unfold group_ids. cbn. rewrite app_nil_r. reflexivity.
  - cbn [collect_ids]. fold (group_key by_question d). rewrite Hd.
    destruct (IH (idMap_push (group_key by_question d) (id d) idMap)
                 (idMap_push_NoDup _ _ _ Hnd))
      as (idMap' & Hrun & Hnd' & Hkeys & Hids).
    exists idMap'. split; [exact Hrun|]. split; [exact Hnd'|]. split.
    + intros key. rewrite Hkeys, idMap_push_keys. cbn [map].
      rewrite elem_of_cons.
      destruct (bool_decide (group_key by_question d ∈ map fst idMap)) eqn:Hin.
      * apply bool_decide_eq_true in Hin. split; [tauto|].
        intros [H|[->|H]]; tauto.
      * rewrite elem_of_app, list_elem_of_singleton. tauto.
    + intros key. rewrite Hids, group_ids_cons.
      destruct (decide (group_key by_question d = key)) as [Heq|Hne].
      * rewrite bool_decide_eq_true_2 by exact Heq. subst key.
        rewrite idMap_get_push_eq. cbn [from_option]. unfold Datatypes.id at 1.
        rewrite <- app_assoc. reflexivity.
      * rewrite bool_decide_eq_false_2 by exact Hne.
        rewrite idMap_get_push_ne by congruence. reflexivity.
Qed.

(** [Object.keys] lists every own property once. *)
Lemma object_keys_Permutation (idMap : IdMap) :
  object_keys idMap ≡ₚ map fst idMap.
Proof.
  unfold object_keys. rewrite merge_sort_Permutation.
  induction idMap as [|[k ids] rest IH]; [reflexivity|].
  cbn [omap list_omap map fst List.filter].
  destruct (array_index k) as [n|] eqn:Hk; cbn [map snd app].
  - rewrite IH. reflexivity.
  - rewrite <- Permutation_middle. rewrite IH. reflexivity.
Qed.

End Merge.

Section MergeClaims.

Lemma render_group_list (by_question : bool) (threshold : Z) (key : jsstring)
    (ids : list Z) :
  Z.of_nat (length ids) <= threshold ->
  render_group by_question threshold key ids
  = key ++ lit " (#" ++ join (lit ", #") (map of_Z ids) ++ lit ")".
Proof.
  intros H. unfold render_group.
  destruct (Z.of_nat (length ids) <=? threshold) eqn:Hle; [reflexivity|].
  apply Z.leb_gt in Hle. lia.
Qed.

Lemma render_group_count (by_question : bool) (threshold : Z) (key : jsstring)
    (ids : list Z) :
  threshold < Z.of_nat (length ids) ->
  render_group by_question threshold key ids
  = key ++ lit " (共 " ++ of_Z (Z.of_nat (length ids)) ++ lit " 个"
    ++ (if by_question then lit "回答" else lit "问题") ++ lit ")".
Proof.
  intros H. unfold render_group.
  destruct (Z.of_nat (length ids) <=? threshold) eqn:Hle; [|reflexivity].
  apply Z.leb_le in Hle. lia.
Qed.

Lemma report_merged (argv : TeachArgv) (dialogues : list Dialogue)
    (lines : list jsstring) :
  merge_applies (options argv) = true ->
  merge_output argv dialogues = Some lines ->
  dialogues <> [] ->
  exists title, report argv dialogues = Listing title lines None.
Proof.
  unfold merge_applies. intros Happ Hmerge Hne.
  apply andb_true_iff in Happ as [Happ Hboth].
  apply andb_true_iff in Happ as [Happ Hauto].
  apply andb_true_iff in Happ as [Hkw Hany].
  apply negb_true_iff in Hboth.
  unfold report. rewrite Hkw, Hauto, Hboth, Hmerge.
  destruct dialogues as [|d rest]; [congruence|]. cbn [is_empty].
  destruct (truthy (Options.question (options argv))) eqn:Hq;
    destruct (truthy (Options.answer (options argv))) eqn:Ha;
    cbn [negb andb orb] in *; try discriminate; eexists; reflexivity.
Qed.

Lemma merge_lines_spec (argv : TeachArgv)
    (dialogues : list Dialogue) :
  Forall (fun d => inherited (group_key (truthy (Options.question (options argv))) d)
                   = false) dialogues ->
  exists keys,
    merge_output argv dialogues
    = Some (map (fun key => render_group (truthy (Options.question (options argv)))
                              (default 5 (mergeThreshold (config argv))) key
                              (group_ids (truthy (Options.question (options argv)))
                                         key dialogues)) keys)
    /\ (forall key, key ∈ keys
                    <-> key ∈ map (group_key (truthy (Options.question (options argv))))
                                  dialogues)
    /\ NoDup keys.
Proof.
  intros Hsafe.
  destruct (collect_ids_spec _ dialogues Hsafe [] (NoDup_nil_2 (A:=jsstring)))
    as (idMap & Hrun & Hnd & Hkeys & Hids).
  exists (object_keys idMap). split; [|split].
  - unfold merge_output. rewrite Hrun, option_bind_Some. f_equal. apply map_ext.
    intros key. rewrite Hids. reflexivity.
  - intros key. rewrite object_keys_Permutation, Hkeys. cbn [map].
    split; [intros [H|H]; [inversion H|exact H]|auto].
  - rewrite object_keys_Permutation. exact Hnd.
Qed.

(** C2 (amended): in a keyword search with merging enabled and not both
    filters present, the dialogues are grouped by the text that is
    searched: a search by question keyword groups by the question text
    ([original]), a search by answer keyword alone by the answer text.
    Every key gives one line; its ids stand in the order of the array;
    the line is "{key} (#{id1}, #{id2}, ...)" when the group has at most
    [mergeThreshold] members (5 by default) and the count summary when it
    has more; and these lines are the listing that [search] reports.
    (Keys that are names inherited from [Object.prototype] are left
    out.) *)
Theorem merge_groups_by_searched_text (argv : TeachArgv) (dialogues : list Dialogue) :
  let by_question := truthy (Options.question (options argv)) in
  let threshold := default 5 (mergeThreshold (config argv)) in
  Forall (fun d => inherited (group_key by_question d) = false) dialogues ->
  (forall d, group_key by_question d
             = if by_question then original d else answer d)
  /\ exists keys,
      merge_output argv dialogues
      = Some (map (fun key => render_group by_question threshold key
                                (group_ids by_question key dialogues)) keys)
      /\ NoDup keys
      /\ (forall key, key ∈ keys <-> key ∈ map (group_key by_question) dialogues)
      /\ (forall key ids, Z.of_nat (length ids) <= threshold ->
            render_group by_question threshold key ids
            = key ++ lit " (#" ++ join (lit ", #") (map of_Z ids) ++ lit ")")
      /\ (forall key ids, threshold < Z.of_nat (length ids) ->
            render_group by_question threshold key ids
            = key ++ lit " (共 " ++ of_Z (Z.of_nat (length ids)) ++ lit " 个"
              ++ (if by_question then lit "回答" else lit "问题") ++ lit ")")
      /\ (mergeThreshold (config argv) = None ->
          forall key ids,
            (length ids = 5%nat ->
             render_group by_question threshold key ids
             = key ++ lit " (#" ++ join (lit ", #") (map of_Z ids) ++ lit ")")
            /\ (length ids = 6%nat ->
                render_group by_question threshold key ids
                = key ++ lit " (共 6 个"
                  ++ (if by_question then lit "回答" else lit "问题") ++ lit ")"))
      /\ (merge_applies (options argv) = true -> dialogues <> [] ->
          exists title,
            report argv dialogues
            = Listing title
                (map (fun key => render_group by_question threshold key
                                   (group_ids by_question key dialogues)) keys)
                None).
Proof.
  intros by_question threshold Hsafe. split; [reflexivity|].
  destruct (merge_lines_spec argv dialogues Hsafe)
    as (keys & Hmerge & Hkeys & Hnd).
  exists keys. split; [exact Hmerge|]. split; [exact Hnd|].
  split; [exact Hkeys|].
  split; [apply render_group_list|]. split; [apply render_group_count|].
  split.
  - intros Hdefault key ids. unfold threshold. rewrite Hdefault. cbn [default].
    split; intros Hlen.
    + apply render_group_list. rewrite Hlen. discriminate.
    + rewrite render_group_count by (rewrite Hlen; reflexivity).
      rewrite Hlen. reflexivity.
  - intros Happ Hne. eapply report_merged; eassumption.
Qed.

Lemma merge_groups_by_searched_text_witness :
  exists keys,
    merge_output Fixtures.merge_argv (Fixtures.answers_for_q 6)
    = Some (map (fun key => render_group true 5 key
                              (group_ids true key (Fixtures.answers_for_q 6))) keys)
    /\ NoDup keys.
Proof.
  destruct (merge_groups_by_searched_text Fixtures.merge_argv
              (Fixtures.answers_for_q 6))
    as (_ & keys & Hrun & Hnd & _).
  - repeat constructor.
  - exists keys. split; [exact Hrun|exact Hnd].
Defined.

(** Five answers of one question are listed by id, six are counted; a
    numeric question text comes first among the keys. *)
Example merge_threshold_default :
  merge_output Fixtures.merge_argv (Fixtures.answers_for_q 5)
  = Some [lit "q (#1, #2, #3, #4, #5)"]
  /\ merge_output Fixtures.merge_argv (Fixtures.answers_for_q 6)
     = Some [lit "q (共 6 个回答)"]
  /\ object_keys [(lit "b", [1]); (lit "10", [2]); (lit "9", [3]); (lit "01", [4])]
     = [lit "9"; lit "10"; lit "b"; lit "01"].
Proof. split; [|split]; vm_compute; reflexivity. Qed.

(** A group key that [idMap] inherits makes line 188 throw. *)
Example merge_inherited_key_throws :
  search 0 Fixtures.inherited_argv = Some Thrown.
Proof. vm_compute. reflexivity. Qed.

(** C2 as stated fails: a search by question keyword groups by the
    question text, not by the answer text.  Two answers taught for the
    question "q" give one line keyed "q", where grouping by the answer
    text would give one line per answer. *)
Lemma merge_groups_by_question_text :
  search 0 Fixtures.merge_argv
  = Some (Listing (lit "问题关键词“q”的搜索结果如下") [lit "q (#1, #2)"] None)
  /\ map (group_key_by_other_dimension true) [Fixtures.d1; Fixtures.d2]
     = [lit "a1"; lit "a2"]
  /\ merge_output Fixtures.merge_argv [Fixtures.d1; Fixtures.d2]
     <> Some [lit "a1 (#1)"; lit "a2 (#2)"].
Proof.
  split; [vm_compute; reflexivity|]. split; [reflexivity|].
  vm_compute. discriminate.
Qed.

End MergeClaims.

(** ** search *)

Section SearchClaims.

Lemma report_empty (argv : TeachArgv) :
  truthy (Options.pipe (options argv)) = false ->
  report argv []
  = NoResults (no_results_message (shape_of (options argv))
                 (Options.original (options argv)) (Options.answer (options argv))).
Proof.
  intros Hpipe. unfold report, shape_of. rewrite Hpipe.
  destruct (truthy (Options.question (options argv)));
    destruct (truthy (Options.answer (options argv)));
    destruct (is_true_opt (Options.keyword (options argv)));
    cbn [negb andb orb is_empty no_results_message]; try reflexivity;
    destruct (Options.autoMerge (options argv));
    cbn [negb andb orb merge_output]; reflexivity.
Qed.

Lemma map_nonempty {A B} (f : A -> B) (l : list A) : l <> [] -> map f l <> [].
Proof. destruct l; [congruence|discriminate]. Qed.

Lemma report_listing (argv : TeachArgv) (dialogues : list Dialogue) :
  dialogues <> [] ->
  (merge_applies (options argv) = true ->
   Forall (fun d => inherited (group_key (truthy (Options.question (options argv))) d)
                    = false) dialogues) ->
  exists title output suffix,
    report argv dialogues = Listing title output suffix /\ output <> [].
Proof.
  intros Hne Hsafe.
  destruct (merge_applies (options argv)) eqn:Happ.
  - destruct (merge_lines_spec argv dialogues (Hsafe eq_refl))
      as (keys & Hmerge & Hkeys).
    destruct (report_merged argv dialogues _ Happ Hmerge Hne) as [title Hrep].
    exists title. eexists. exists None. split; [exact Hrep|].
    apply map_nonempty. destruct dialogues as [|d rest]; [congruence|].
    intros Hnil. assert (Hin : group_key (truthy (Options.question (options argv))) d
                               ∈ keys) by (apply Hkeys; left).
    rewrite Hnil in Hin. inversion Hin.
  - unfold merge_applies in Happ. unfold report.
    assert (Hfq : formatQuestionAnswers argv dialogues <> [])
      by (apply map_nonempty; exact Hne).
    assert (Hfa : formatAnswers argv dialogues 0 <> [])
      by (apply map_nonempty; exact Hne).
    destruct dialogues as [|d rest]; [congruence|]. cbn [is_empty].
    destruct (truthy (Options.question (options argv)));
      destruct (truthy (Options.answer (options argv)));
      destruct (is_true_opt (Options.keyword (options argv)));
      destruct (Options.autoMerge (options argv));
      cbn [negb andb orb] in *; try discriminate;
      (eexists; eexists; eexists; split; [reflexivity|]);
      first [exact Hfq | exact Hfa | discriminate].
Qed.

Lemma keyword_answer_tail (asked answer : option jsstring) :
  no_results_message KeywordAnswer asked answer
  = (lit "没有搜索到含有关键词" ++ quoted answer) ++ lit "的回答。".
Proof. apply app_assoc. Qed.

Lemma keyword_question_tail (asked answer : option jsstring) :
  no_results_message KeywordQuestion asked answer
  = (lit "没有搜索到含有关键词" ++ quoted asked) ++ lit "的问题。".
Proof. apply app_assoc. Qed.

Lemma keyword_both_tail (asked answer : option jsstring) :
  no_results_message KeywordBoth asked answer
  = ((lit "没有搜索到含有关键词" ++ quoted asked) ++ quoted answer) ++ lit "的问答。".
Proof. exact (eq_trans (app_assoc _ _ _) (app_assoc _ _ _)). Qed.

(** The message tells the shape: two shapes never share a message, for
    whatever texts the messages quote.  The first eight code units tell
    all shapes apart but the three keyword ones, which differ in their
    last four. *)
Lemma no_results_message_shape (s1 s2 : QueryShape)
    (asked1 answer1 asked2 answer2 : option jsstring) :
  no_results_message s1 asked1 answer1 = no_results_message s2 asked2 answer2 ->
  s1 = s2.
Proof.
  intros H.
  destruct s1, s2; try reflexivity; exfalso;
    first [ generalize (f_equal (take 8) H); clear; vm_compute; discriminate
          | rewrite ?keyword_answer_tail, ?keyword_question_tail,
                    ?keyword_both_tail in H;
            apply app_inj_2 in H as [_ H];
            [ revert H; clear; vm_compute; discriminate
            | vm_compute; reflexivity ] ].
Qed.

Lemma same_record_safe (by_question : bool) (res dialogues : list Dialogue) :
  Forall2 same_record res dialogues ->
  Forall (fun d => inherited (group_key by_question d) = false) dialogues ->
  Forall (fun d => inherited (group_key by_question d) = false) res.
Proof.
  induction 1 as [|d' d res' ds' (_ & Ho & Ha & _) _ IH]; intros Hsafe;
    [constructor|].
  inversion Hsafe as [|? ? Hd Hrest]; subst. constructor; [|auto].
  unfold group_key in *. rewrite Ho, Ha. exact Hd.
Qed.

(** C9 (amended): whatever the shape of the query, when the listeners do
    not bail and the store returns no dialogue, [search] sends the
    no-results message of that shape, and two shapes never share a
    message; when the store returns dialogues and the query is not piped,
    [search] hands a title and a listing of at least one entry to
    [sendResult] (over a finite store, and with no group key that is a
    name inherited from [Object.prototype] when the merge step runs);
    and when the store returns dialogues and the query is piped, [search]
    sends nothing: it runs the piped command with the ids of the
    dialogues found, in their order and joined by commas, as its
    target. *)
Theorem search_reports_empty_and_listed
    (argv : TeachArgv) (test : DialogueTest.t) (store : list Dialogue) :
  bail_dialogue_search (ctx argv) (initial_test (options argv)) = (false, test) ->
  (getDialogues (ctx argv) test = [] ->
   forall fuel,
     search (S fuel) argv
     = Some (NoResults (no_results_message (shape_of (options argv))
                          (Options.original (options argv))
                          (Options.answer (options argv)))))
  /\ (forall s1 s2 asked1 answer1 asked2 answer2,
        s1 <> s2 ->
        no_results_message s1 asked1 answer1 <> no_results_message s2 asked2 answer2)
  /\ (getDialogues (ctx argv) test <> [] ->
      truthy (Options.pipe (options argv)) = false ->
      store_within (ctx argv) store ->
      (merge_applies (options argv) = true ->
       Forall (fun d => inherited (group_key (truthy (Options.question (options argv))) d)
                        = false) (getDialogues (ctx argv) test)) ->
      exists title output suffix,
        output <> []
        /\ sent argv (Listing title output suffix)
           = Some (sendResult argv title output suffix)
        /\ forall fuel,
             (length (getDialogues (ctx argv) test ++ store) < fuel)%nat ->
             search fuel argv = Some (Listing title output suffix))
  /\ (getDialogues (ctx argv) test <> [] ->
      truthy (Options.pipe (options argv)) = true ->
      exists pipe,
        Options.pipe (options argv) = Some pipe
        /\ sent argv (Piped pipe
                        (join (lit ",")
                              (map (fun d => of_Z (id d))
                                   (getDialogues (ctx argv) test)))) = None
        /\ forall fuel,
             search fuel argv
             = Some (Piped pipe
                       (join (lit ",")
                             (map (fun d => of_Z (id d))
                                  (getDialogues (ctx argv) test))))).
Proof.
  intros Hbail. split; [|split; [|split]].
  - intros Hempty fuel. unfold search. rewrite Hbail, Hempty. cbn [is_empty].
    destruct (truthy (Options.pipe (options argv))) eqn:Hpipe.
    + unfold shape_of. rewrite Hpipe. cbv beta iota delta [no_results_message].
      reflexivity.
    + destruct (Options.recursive (options argv)).
      * unfold resolve. rewrite getRedirections_nil.
        cbn [fmap option_fmap option_map fst]. rewrite option_bind_Some.
        rewrite report_empty by exact Hpipe. reflexivity.
      * rewrite option_bind_Some, report_empty by exact Hpipe. reflexivity.
  - intros s1 s2 a1 b1 a2 b2 Hne H. apply Hne.
    eapply no_results_message_shape. exact H.
  - intros Hne Hpipe Hstore Hsafe.
    destruct (Options.recursive (options argv)) eqn:Hrec.
    + destruct (resolve_total argv test (getDialogues (ctx argv) test) store Hstore)
        as (res & st & Hrun & _ & Hsame).
      assert (Hres : res <> []).
      { intros ->. inversion Hsame as [Hnil|]. congruence. }
      destruct (report_listing argv res Hres) as (title & output & suffix & Hrep & Hout).
      { intros Happ. eapply same_record_safe; [exact Hsame|auto]. }
      exists title, output, suffix. split; [exact Hout|]. split; [reflexivity|].
      intros fuel Hfuel. unfold search. rewrite Hbail, Hpipe, Hrec.
      rewrite (Hrun fuel Hfuel). cbn [fmap option_fmap option_map fst].
      rewrite option_bind_Some, Hrep. reflexivity.
    + destruct (report_listing argv _ Hne Hsafe)
        as (title & output & suffix & Hrep & Hout).
      exists title, output, suffix. split; [exact Hout|]. split; [reflexivity|].
      intros fuel _. unfold search. rewrite Hbail, Hpipe, Hrec.
      rewrite option_bind_Some, Hrep. reflexivity.
  - intros Hne Hpipe.
    destruct (Options.pipe (options argv)) as [pipe|] eqn:Hopt; [|discriminate].
    exists pipe. split; [reflexivity|]. split; [reflexivity|].
    intros fuel. unfold search. rewrite Hbail, Hopt, Hpipe.
    destruct (getDialogues (ctx argv) test) as [|d rest]; [congruence|].
    reflexivity.
Qed.

Lemma search_reports_empty_and_listed_witness :
  search 1 (Fixtures.empty_argv Fixtures.merge_options)
  = Some (NoResults (lit "没有搜索到含有关键词“q”的问题。"))
  /\ (exists title output suffix,
        output <> []
        /\ search 4 Fixtures.cycle_argv = Some (Listing title output suffix))
  /\ search 0 Fixtures.pipe_argv = Some (Piped (lit "-r") (lit "7")).
Proof.
  split; [|split].
  - refine (eq_trans (proj1 (search_reports_empty_and_listed
              (Fixtures.empty_argv Fixtures.merge_options)
              (initial_test Fixtures.merge_options) [] eq_refl) eq_refl 0%nat) _).
    vm_compute. reflexivity.
  - destruct (proj1 (proj2 (proj2 (search_reports_empty_and_listed Fixtures.cycle_argv
                (initial_test Fixtures.cycle_options)
                [Fixtures.dA; Fixtures.dB] eq_refl))))
      as (title & output & suffix & Hout & _ & Hrun).
    + vm_compute. discriminate.
    + reflexivity.
    + apply table_store_within.
    + vm_compute. discriminate.
    + exists title, output, suffix. split; [exact Hout|]. apply Hrun.
      vm_compute. lia.
  - destruct (proj2 (proj2 (proj2 (search_reports_empty_and_listed Fixtures.pipe_argv
                (initial_test Fixtures.pipe_options) [] eq_refl))))
      as (pipe & Hpipe & _ & Hrun).
    + vm_compute. discriminate.
    + reflexivity.
    + refine (eq_trans (Hrun 0%nat) _). inversion Hpipe. vm_compute. reflexivity.
Defined.

(** C9 as stated fails for the pipe form: a piped search that finds a
    dialogue sends no listing; it runs the piped command on the ids. *)
Lemma piped_search_sends_no_listing :
  getDialogues (ctx Fixtures.pipe_argv) (initial_test Fixtures.pipe_options)
  = [Fixtures.d7]
  /\ search 0 Fixtures.pipe_argv = Some (Piped (lit "-r") (lit "7"))
  /\ sent Fixtures.pipe_argv (Piped (lit "-r") (lit "7")) = None
  /\ ~ (exists title output suffix,
          search 0 Fixtures.pipe_argv = Some (Listing title output suffix)).
Proof.
  split; [reflexivity|]. split; [vm_compute; reflexivity|]. split; [reflexivity|].
  intros (title & output & suffix & H). revert H. vm_compute. discriminate.
Qed.

End SearchClaims.

(** * Further properties *)

(** ** The pages of a listing *)

Section Pages.

Lemma slice_take_drop {A} (a b : Z) (l : list A) :
  0 <= a <= b ->
  slice a b l = take (Z.to_nat (b - a)) (drop (Z.to_nat a) l).
Proof.
  intros Hab. unfold slice. rewrite !rel_index_nonneg by lia.
  destruct (Z_lt_le_dec a (Z.of_nat (length l))) as [Hlt|Hge].
  - rewrite (Z.min_l a) by lia.
    destruct (Z_le_gt_dec b (Z.of_nat (length l))) as [Hb|Hb].
    + rewrite Z.min_l by lia. reflexivity.
    + rewrite Z.min_r by lia.
      rewrite !take_ge; [reflexivity| |]; rewrite length_drop; lia.
  - rewrite (Z.min_r a) by lia.
    rewrite (drop_ge l (Z.to_nat (Z.of_nat (length l)))) by lia.
    rewrite (drop_ge l (Z.to_nat a)) by lia.
    rewrite !take_nil. reflexivity.
Qed.

Lemma pages_prefix (size : Z) (output : list jsstring) (k : nat) :
  0 < size ->
  concat (map (fun p => page_body size p output) (map Z.of_nat (seq 1 k)))
  = take (k * Z.to_nat size) output.
Proof.
  intros Hsize. induction k as [|k IH]; [reflexivity|].
  rewrite seq_S, !map_app, concat_app, IH. cbn [map concat].
  rewrite app_nil_r. unfold page_body.
  rewrite slice_take_drop by nia.
  replace (Z.to_nat ((Z.of_nat (1 + k) - 1) * size)) with (k * Z.to_nat size)%nat by nia.
  replace (Z.to_nat (Z.of_nat (1 + k) * size - (Z.of_nat (1 + k) - 1) * size))
    with (Z.to_nat size) by nia.
  rewrite take_take_drop. f_equal. lia.
Qed.

(** X1: the pages of a listing partition it.  For a positive page size,
    the bodies of the pages 1 to [pageCount], one after the other, are
    the lines of the listing, each once and in order; and the body that
    [sendResult] shows for [page] is the one of that number. *)
Theorem pages_partition (argv : TeachArgv) (title : jsstring)
    (output : list jsstring) (suffix : option jsstring) :
  let size := default 20 (itemsPerPage (config argv)) in
  let page := default 1 (Options.page (options argv)) in
  let pageCount := ceil_div (Z.of_nat (length output)) size in
  0 < size ->
  concat (map (fun p => page_body size p output) (page_numbers pageCount)) = output
  /\ (size < Z.of_nat (length output) ->
      sendResult_output argv title output suffix
      = push_suffix ((title ++ lit "（第 " ++ of_Z page ++ lit "/" ++ of_Z pageCount
                      ++ lit " 页）：") :: page_body size page output) suffix
        ++ [trailer]).
Proof.
  intros size page pageCount Hsize. split.
  - unfold page_numbers. rewrite pages_prefix by exact Hsize.
    apply take_ge.
    pose proof (ceil_div_bounds (Z.of_nat (length output)) size Hsize) as Hc.
    fold pageCount in Hc. nia.
  - intros Hlen. apply sendResult_output_paged; [fold size; lia|exact Hlen].
Qed.

Lemma pages_partition_witness :
  concat (map (fun p => page_body 20 p (Fixtures.numbered_lines 45)) [1; 2; 3])
  = Fixtures.numbered_lines 45.
Proof.
  apply (proj1 (pages_partition (Fixtures.page_argv (Some 2) (Some 20)) []
                  (Fixtures.numbered_lines 45) None eq_refl)).
Defined.



End Pages.

(** ** What formatAnswer keeps and removes *)

Section FormatAnswerMore.

Lemma image_prefix_head : image_prefix = LBRACKET :: lit "CQ:image,".
Proof. reflexivity. Qed.

Lemma image_at_other (c : N) (r : jsstring) :
  c <> LBRACKET -> image_at (c :: r) = None.
Proof.
  intros Hc. unfold image_at. rewrite image_prefix_head. cbn [startsWith].
  destruct (code_eqb LBRACKET c) eqn:H; [|reflexivity].
  apply code_eqb_eq in H. congruence.
Qed.

Lemma replace_images_cons (c : N) (r : jsstring) :
  image_at (c :: r) = None -> replace_images (c :: r) = c :: replace_images r.
Proof.
  intros H. unfold replace_images. cbn [length replace_images_from].
  rewrite H. reflexivity.
Qed.

(** X3: an image marker is replaced by the placeholder, once: a text
    without opening bracket before it is kept, the marker
    [[CQ:image,body]] (a body of at least one code unit, none of them a
    closing bracket) becomes [[图片]], and the replacement goes on after
    the marker. *)
Theorem replace_images_marker (pre body post : jsstring) :
  LBRACKET ∉ pre -> body <> [] -> RBRACKET ∉ body ->
  replace_images (pre ++ image_prefix ++ body ++ RBRACKET :: post)
  = pre ++ image_placeholder ++ replace_images post.
Proof.
  intros Hpre Hbody Hnot. induction pre as [|c pre IH].
  - cbn [app].
    assert (Hat : image_at (image_prefix ++ body ++ RBRACKET :: post) = Some post).
    { apply image_at_spec. exists body. auto. }
    unfold replace_images at 1.
    destruct (image_prefix ++ body ++ RBRACKET :: post) as [|c s] eqn:Hs.
    + apply image_at_shorter in Hat. cbn [length] in Hat. lia.
    + cbn [length replace_images_from]. rewrite Hat. f_equal.
      apply replace_images_from_enough.
      apply image_at_shorter in Hat. cbn [length] in Hat. lia.
  - cbn [app]. rewrite replace_images_cons.
    + rewrite IH; [reflexivity|]. intros H. apply Hpre. right. exact H.
    + apply image_at_other. intros ->. apply Hpre. left.
Qed.

Lemma replace_images_marker_witness :
  replace_images (lit "see " ++ image_prefix ++ lit "file=a.png" ++ RBRACKET :: lit "!")
  = lit "see " ++ image_placeholder ++ replace_images (lit "!").
Proof.
  apply replace_images_marker.
  - apply (bool_decide_unpack _). vm_compute. exact I.
  - discriminate.
  - apply (bool_decide_unpack _). vm_compute. exact I.
Defined.

Lemma split_first_Some (s l0 : jsstring) :
  split_first s = Some l0 -> (length l0 <= length s)%nat /\ (LF ∉ l0).
Proof.
  revert l0. induction s as [|c r IH]; intros l0 H; [discriminate|].
  cbn [split_first] in H. destruct (break_at (c :: r)) eqn:Hb.
  - inversion H. split; [cbn [length]; lia|apply not_elem_of_nil].
  - destruct (split_first r) as [l1|]; [|discriminate]. inversion H. subst.
    destruct (IH l1 eq_refl) as [Hlen Hnot]. split; [cbn [length]; lia|].
    intros Hin. apply elem_of_cons in Hin as [Heq|Hin]; [|tauto].
    subst c. unfold break_at in Hb.
    rewrite (proj2 (code_eqb_eq LF LF) eq_refl) in Hb. discriminate.
Qed.

Lemma split_first_None (s : jsstring) : split_first s = None -> LF ∉ s.
Proof.
  induction s as [|c r IH]; intros H; [apply not_elem_of_nil|].
  cbn [split_first] in H. destruct (break_at (c :: r)) eqn:Hb; [discriminate|].
  destruct (split_first r) as [l1|]; [discriminate|].
  intros Hin. apply elem_of_cons in Hin as [Heq|Hin]; [|exact (IH eq_refl Hin)].
  subst c. unfold break_at in Hb.
  rewrite (proj2 (code_eqb_eq LF LF) eq_refl) in Hb. discriminate.
Qed.

Lemma trimStart_sub (s : jsstring) :
  (length (trimStart s) <= length s)%nat /\ trimStart s ⊆ s.
Proof.
  induction s as [|c r [IHl IHs]]; [split; [reflexivity|intros x Hx; exact Hx]|].
  cbn [trimStart]. destruct (is_space c).
  - split; [cbn [length]; lia|]. intros x Hx. right. apply IHs. exact Hx.
  - split; [reflexivity|intros x Hx; exact Hx].
Qed.

Lemma trim_sub (s : jsstring) :
  (length (trim s) <= length s)%nat /\ trim s ⊆ s.
Proof.
  unfold trim, trimEnd.
  destruct (trimStart_sub s) as [Hl1 Hs1].
  destruct (trimStart_sub (rev (trimStart s))) as [Hl2 Hs2].
  split.
  - rewrite length_rev. rewrite length_rev in Hl2. lia.
  - intros x Hx. apply Hs1.
    apply list_elem_of_In, in_rev, list_elem_of_In in Hx.
    apply Hs2 in Hx. apply list_elem_of_In, in_rev, list_elem_of_In in Hx. exact Hx.
Qed.

Lemma replace_images_from_sub (fuel : nat) (s : jsstring) :
  (length (replace_images_from fuel s) <= length s)%nat
  /\ (forall x, x ∈ replace_images_from fuel s -> x ∈ s \/ x ∈ image_placeholder).
Proof.
  revert s. induction fuel as [|fuel IH]; intros s.
  - destruct s; cbn [replace_images_from]; split; auto.
  - destruct s as [|c r]; [cbn [replace_images_from]; split; auto|].
    cbn [replace_images_from].
    destruct (image_at (c :: r)) as [rest|] eqn:Hat.
    + destruct (IH rest) as [Hl Hs].
      apply image_at_spec in Hat as (body & Hne & _ & Heq).
      rewrite Heq. split.
      * rewrite !length_app. cbn [length].
        change (length image_placeholder) with 4%nat.
        change (length image_prefix) with 10%nat. lia.
      * intros x Hx. apply elem_of_app in Hx as [Hx|Hx]; [auto|].
        destruct (Hs x Hx) as [Hr|Hp]; [|auto]. left.
        rewrite !elem_of_app. right. right. right. exact Hr.
    + destruct (IH r) as [Hl Hs]. split; [cbn [length]; lia|].
      intros x Hx. apply elem_of_cons in Hx as [->|Hx]; [left; left|].
      destruct (Hs x Hx) as [Hr|Hp]; [left; right; exact Hr|auto].
Qed.

Lemma slice_sub {A} (a b : Z) (l : list A) :
  (length (slice a b l) <= length l)%nat /\ slice a b l ⊆ l.
Proof.
  unfold slice. split.
  - rewrite length_take, length_drop. lia.
  - etransitivity; [apply subseteq_take|apply subseteq_drop].
Qed.

Lemma append_ellipsis_sub (trimmed : bool) (s : jsstring) (x : N) :
  x ∈ append_ellipsis trimmed s -> x ∈ s \/ x = ELLIPSIS.
Proof.
  unfold append_ellipsis.
  destruct (trimmed && negb (endsWith (lit "……") s)); [|auto].
  rewrite lit_ellipsis, lit_ellipsis2.
  destruct (endsWith [ELLIPSIS] s); intros Hx;
    apply elem_of_app in Hx as [Hx|Hx]; auto; right.
  - apply list_elem_of_singleton in Hx. exact Hx.
  - apply elem_of_cons in Hx as [Hx|Hx]; [exact Hx|].
    apply list_elem_of_singleton in Hx. exact Hx.
Qed.

(** X4: whatever the configuration, [formatAnswer] returns a single
    line, with no newline code unit in it, and never more than two code
    units beyond the length of its source. *)
Theorem formatAnswer_single_line (source : jsstring) (config : TeachConfig) :
  (LF ∉ formatAnswer source config)
  /\ (length (formatAnswer source config) <= length source + 2)%nat.
Proof.
  unfold formatAnswer, formatAnswer_cut.
  set (m := default 100 (maxAnswerLength config)).
  assert (Hfirst : exists trimmed s,
    match split_first source with
    | Some l0 => (true, trim l0)
    | None => (false, source)
    end = (trimmed, s)
    /\ (length s <= length source)%nat /\ (LF ∉ s)).
  { destruct (split_first source) as [l0|] eqn:Hsplit.
    - exists true, (trim l0). split; [reflexivity|].
      destruct (split_first_Some _ _ Hsplit) as [Hl Hn].
      destruct (trim_sub l0) as [Hl' Hs']. split; [lia|].
      intros Hin. apply Hn, Hs', Hin.
    - exists false, source. split; [reflexivity|]. split; [lia|].
      apply split_first_None. exact Hsplit. }
  destruct Hfirst as (trimmed & s & -> & Hlen & Hnot).
  destruct (replace_images_from_sub (length s) s) as [Hrl Hrs].
  fold (replace_images s) in Hrl, Hrs.
  assert (Hrep : LF ∉ replace_images s).
  { intros Hin. destruct (Hrs _ Hin) as [H|H]; [tauto|].
    revert H. apply (bool_decide_unpack _). vm_compute. exact I. }
  assert (Hfinal : forall t c, (length c <= length source)%nat -> LF ∉ c ->
    (LF ∉ append_ellipsis t c)
    /\ (length (append_ellipsis t c) <= length source + 2)%nat).
  { intros t c Hcl Hcn. split.
    - intros Hin. apply append_ellipsis_sub in Hin as [Hin|Heq]; [tauto|discriminate].
    - pose proof (length_append_ellipsis t c). lia. }
  cbv beta iota zeta.
  destruct (Z.of_nat (length (replace_images s)) >? m); cbv beta iota.
  - destruct (slice_sub 0 m (replace_images s)) as [Hl Hs].
    apply Hfinal; [lia|]. intros Hin. apply Hrep, Hs, Hin.
  - apply Hfinal; [lia|exact Hrep].
Qed.

End FormatAnswerMore.

(** ** Rendering resolved redirections *)

Section Rendering.

Lemma Dialogue_tree_ind (P : Dialogue -> Prop) :
  (forall i o a f, P (mkDialogue i o a f None)) ->
  (forall i o a f children, Forall P children -> P (mkDialogue i o a f (Some children))) ->
  forall d, P d.
Proof.
  intros Hleaf Hnode. fix IH 1. intros [i o a f [children|]].
  - apply Hnode. induction children as [|c children IHc]; constructor.
    + apply IH.
    + exact IHc.
  - apply Hleaf.
Qed.

Lemma join_cons2 (sep x y : jsstring) (rest : list jsstring) :
  join sep (x :: y :: rest) = x ++ sep ++ join sep (y :: rest).
Proof. reflexivity. Qed.

Lemma join_app_head (sep : jsstring) (l1 r : list jsstring) :
  l1 <> [] -> join sep (l1 ++ r) = join sep (join sep l1 :: r).
Proof.
  induction l1 as [|a [|b l] IH]; intros Hne; [congruence|reflexivity|].
  change ((a :: b :: l) ++ r) with (a :: (b :: l) ++ r).
  change ((b :: l) ++ r) with (b :: (l ++ r)) at 1.
  rewrite join_cons2. change (b :: l ++ r) with ((b :: l) ++ r).
  rewrite IH by discriminate. rewrite (join_cons2 sep a b l).
  destruct r as [|c r'].
  - cbn [join]. reflexivity.
  - rewrite !join_cons2. rewrite <- !app_assoc. reflexivity.
Qed.

Lemma join_concat (sep x : jsstring) (ls : list (list jsstring)) :
  Forall (fun l => l <> []) ls ->
  join sep (x :: map (join sep) ls) = join sep (x :: concat ls).
Proof.
  intros Hall. revert x. induction Hall as [|l ls Hl _ IH]; intros x; [reflexivity|].
  cbn [map concat]. rewrite join_cons2, IH.
  rewrite <- (join_app_head sep l (concat ls) Hl).
  destruct l as [|a l']; [congruence|]. reflexivity.
Qed.

Lemma tree_lines_nonempty (argv : TeachArgv) (padding : nat) (d : Dialogue) :
  tree_lines argv padding d <> [].
Proof. destruct d. discriminate. Qed.

(** X5: the rendering of a dialogue with its resolved redirections is the
    list of the lines of the tree, parents before children, each line
    with one ["=> "] per level of nesting, joined by newlines; an entry of
    the question-and-answer style is its own line followed by the lines of
    the redirections at depth 1. *)
Theorem formatAnswers_tree (argv : TeachArgv) :
  (forall d padding,
     formatAnswers_entry argv padding d = join NEWLINE (tree_lines argv padding d))
  /\ (forall dialogues,
        formatQuestionAnswers argv dialogues
        = map (fun d => join NEWLINE
                 (question_line argv d
                  :: match _redirections d with
                     | None => []
                     | Some children => concat (map (tree_lines argv 1) children)
                     end)) dialogues).
Proof.
  assert (Htree : forall d padding,
    formatAnswers_entry argv padding d = join NEWLINE (tree_lines argv padding d)).
  { induction d as [i o a f|i o a f children IH] using Dialogue_tree_ind;
      intros padding; [reflexivity|].
    cbn [formatAnswers_entry tree_lines]. fold NEWLINE.
    rewrite <- join_concat.
    - rewrite map_map. f_equal. f_equal.
      induction IH as [|c cs Hc _ IHcs]; [reflexivity|].
      cbn [map]. rewrite Hc, IHcs. reflexivity.
    - apply Forall_forall. intros l Hl. apply list_elem_of_In, in_map_iff in Hl as (c & <- & _).
      apply tree_lines_nonempty. }
  split; [exact Htree|].
  intros dialogues. unfold formatQuestionAnswers. apply map_ext. intros d.
  fold (question_line argv d). fold NEWLINE.
  destruct (_redirections d) as [children|]; [|reflexivity].
  rewrite <- join_concat.
  - rewrite map_map. unfold formatAnswers. f_equal. f_equal.
    apply map_ext. intros c. apply Htree.
  - apply Forall_forall. intros l Hl. apply list_elem_of_In, in_map_iff in Hl as (c & <- & _).
    apply tree_lines_nonempty.
Qed.

End Rendering.

(** ** The groups of a merged listing *)

Section MergeMore.

Lemma collect_ids_None (by_question : bool) (dialogues : list Dialogue) :
  forall idMap,
    collect_ids by_question dialogues idMap = None
    <-> Exists (fun d => inherited (group_key by_question d) = true) dialogues.
Proof.
  induction dialogues as [|d rest IH]; intros idMap; cbn [collect_ids].
  - split; [discriminate|intros H; inversion H].
  - fold (group_key by_question d).
    destruct (inherited (group_key by_question d)) eqn:Hd.
    + split; [intros _; left; exact Hd|reflexivity].
    + rewrite IH. split; [intros H; right; exact H|].
      intros H. inversion H as [? ? H1|? ? H1]; subst; [congruence|exact H1].
Qed.

Lemma merge_output_None (argv : TeachArgv) (dialogues : list Dialogue) :
  merge_output argv dialogues = None
  <-> Exists (fun d => inherited
                         (group_key (truthy (Options.question (options argv))) d)
                       = true) dialogues.
Proof.
  rewrite <- (collect_ids_None _ dialogues []).
  unfold merge_output.
  destruct (collect_ids _ dialogues []); cbn; split; congruence.
Qed.

Lemma report_thrown_merge (argv : TeachArgv) (dialogues : list Dialogue) :
  report argv dialogues = Thrown
  <-> merge_applies (options argv) = true /\ merge_output argv dialogues = None.
Proof.
  unfold report, merge_applies.
  destruct (truthy (Options.question (options argv)));
    destruct (truthy (Options.answer (options argv)));
    destruct (is_true_opt (Options.keyword (options argv)));
    destruct (Options.autoMerge (options argv));
    cbn [negb andb orb];
    destruct (is_empty dialogues);
    try destruct (merge_output argv dialogues);
    (split; [intros H; try discriminate H; split; reflexivity
            |intros [H1 H2]; try discriminate H1; try discriminate H2; reflexivity]).
Qed.

(** X6: the merge step throws exactly when a group key is a name that
    objects inherit from [Object.prototype], and [search]'s report is an
    uncaught [TypeError] exactly when the merge step runs and throws. *)
Theorem merge_throws_iff (argv : TeachArgv) (dialogues : list Dialogue) :
  let by_question := truthy (Options.question (options argv)) in
  (merge_output argv dialogues = None
   <-> Exists (fun d => inherited (group_key by_question d) = true) dialogues)
  /\ (report argv dialogues = Thrown
      <-> merge_applies (options argv) = true
          /\ Exists (fun d => inherited (group_key by_question d) = true) dialogues).
Proof.
  intros by_question. split.
  - apply merge_output_None.
  - rewrite report_thrown_merge, merge_output_None. reflexivity.
Qed.

Lemma collect_ids_keys (by_question : bool) (dialogues : list Dialogue) :
  forall idMap idMap',
    collect_ids by_question dialogues idMap = Some idMap' ->
    map fst idMap'
    = fold_left (fun seen key => if bool_decide (key ∈ seen) then seen else seen ++ [key])
                (map (group_key by_question) dialogues) (map fst idMap).
Proof.
  induction dialogues as [|d rest IH]; intros idMap idMap' H; cbn [collect_ids] in H.
  - inversion H. reflexivity.
  - fold (group_key by_question d) in H.
    destruct (inherited (group_key by_question d)); [discriminate|].
    rewrite (IH _ _ H), idMap_push_keys. reflexivity.
Qed.

Lemma concat_singletons {A} `{EqDecision K} (f : A -> K) (x : A) (keys : list K) :
  NoDup keys -> f x ∈ keys ->
  concat (map (fun k => if bool_decide (f x = k) then [x] else []) keys) = [x].
Proof.
  induction 1 as [|k keys Hk Hnd IH]; intros Hin; [inversion Hin|].
  cbn [map concat]. destruct (decide (f x = k)) as [Heq|Hne].
  - rewrite bool_decide_eq_true_2 by exact Heq. cbn [app]. f_equal.
    clear IH Hin. induction keys as [|k' keys IH]; [reflexivity|].
    cbn [map concat]. apply NoDup_cons in Hnd as [Hk' Hnd].
    rewrite bool_decide_eq_false_2.
    + cbn [app]. apply IH; [|exact Hnd]. intros H. apply Hk. right. exact H.
    + intros H. apply Hk. apply elem_of_cons. left. congruence.
  - rewrite bool_decide_eq_false_2 by exact Hne. cbn [app]. apply IH.
    apply elem_of_cons in Hin as [H|H]; [congruence|exact H].
Qed.

Lemma groups_partition {A} `{EqDecision K} (f : A -> K) (l : list A) (keys : list K) :
  NoDup keys -> (forall x, x ∈ l -> f x ∈ keys) ->
  concat (map (fun k => List.filter (fun x => bool_decide (f x = k)) l) keys) ≡ₚ l.
Proof.
  intros Hnd. induction l as [|x l IH]; intros Hall.
  - clear Hnd Hall. induction keys as [|k ks IHk]; [reflexivity|].
    cbn [map concat List.filter app]. exact IHk.
  - assert (Hsplit : forall ks,
      concat (map (fun k => List.filter (fun x => bool_decide (f x = k)) (x :: l)) ks)
      ≡ₚ concat (map (fun k => if bool_decide (f x = k) then [x] else []) ks)
         ++ concat (map (fun k => List.filter (fun x => bool_decide (f x = k)) l) ks)).
    { induction ks as [|k ks IHk]; [reflexivity|].
      cbn [map concat List.filter]. rewrite IHk.
      destruct (bool_decide (f x = k)); cbn [app].
      - constructor. rewrite !app_assoc. apply Permutation_app_tail.
        apply Permutation_app_comm.
      - rewrite !app_assoc. apply Permutation_app_tail.
        apply Permutation_app_comm. }
    rewrite Hsplit, concat_singletons by (auto; apply Hall; left).
    cbn [app]. constructor. apply IH. intros y Hy. apply Hall. right. exact Hy.
Qed.

(** X7: merging loses no dialogue and shows none twice: over the lines of
    the merged listing, the groups' ids, one group after the other, are a
    rearrangement of the ids of the dialogues found. *)
Theorem merge_partition (argv : TeachArgv) (dialogues : list Dialogue) :
  let by_question := truthy (Options.question (options argv)) in
  let threshold := default 5 (mergeThreshold (config argv)) in
  Forall (fun d => inherited (group_key by_question d) = false) dialogues ->
  exists keys,
    merge_output argv dialogues
    = Some (map (fun key => render_group by_question threshold key
                              (group_ids by_question key dialogues)) keys)
    /\ concat (map (fun key => group_ids by_question key dialogues) keys)
       ≡ₚ map id dialogues.
Proof.
  intros by_question threshold Hsafe.
  destruct (merge_lines_spec argv dialogues Hsafe) as (keys & Hrun & Hkeys & Hnd).
  exists keys. split; [exact Hrun|].
  unfold group_ids. fold by_question.
  rewrite <- (map_map (fun k => List.filter
                         (fun d => bool_decide (group_key by_question d = k)) dialogues)
                      (map id)).
  rewrite <- concat_map. apply Permutation_map.
  apply groups_partition; [exact Hnd|].
  intros d Hd. apply Hkeys. apply list_elem_of_In, in_map, list_elem_of_In. exact Hd.
Qed.

Lemma merge_partition_witness :
  exists keys,
    merge_output MoreFixtures.mixed_argv MoreFixtures.mixed
    = Some (map (fun key => render_group true 5 key
                              (group_ids true key MoreFixtures.mixed)) keys)
    /\ concat (map (fun key => group_ids true key MoreFixtures.mixed) keys)
       ≡ₚ [1; 2; 3; 4].
Proof.
  apply (merge_partition MoreFixtures.mixed_argv MoreFixtures.mixed).
  repeat constructor.
Defined.

Lemma merge_throws_iff_witness :
  report Fixtures.inherited_argv [Fixtures.dInherited] = Thrown.
Proof.
  apply (proj2 (merge_throws_iff Fixtures.inherited_argv [Fixtures.dInherited])).
  split; [reflexivity|]. left. reflexivity.
Defined.

#[local] Instance index_le_total : Total index_le.
Proof. intros a b. unfold index_le. lia. Qed.

Lemma indexed_keys (idMap : IdMap) :
  map snd (omap (fun e : jsstring * list Z =>
                   match array_index e.1 with Some n => Some (n, e.1) | None => None end)
                idMap)
  = List.filter is_index (map fst idMap)
  /\ Forall (fun p : N * jsstring => array_index p.2 = Some p.1)
             (omap (fun e : jsstring * list Z =>
                      match array_index e.1 with Some n => Some (n, e.1) | None => None end)
                   idMap).
Proof.
  induction idMap as [|[k ids] rest [IH1 IH2]]; [split; [reflexivity|constructor]|].
  cbn [omap list_omap map fst List.filter]. unfold is_index at 1.
  destruct (array_index k) as [n|] eqn:Hk.
  - split; [cbn [map snd]; f_equal; exact IH1|]. constructor; [exact Hk|exact IH2].
  - split; [exact IH1|exact IH2].
Qed.

Lemma Sorted_index_order (l : list (N * jsstring)) :
  Sorted index_le l ->
  Forall (fun p : N * jsstring => array_index p.2 = Some p.1) l ->
  Sorted index_order (map snd l).
Proof.
  induction 1 as [|p l Hs IH Hhd]; intros Hall; [constructor|].
  inversion Hall as [|? ? Hp Hrest]; subst. cbn [map]. constructor; [auto|].
  destruct Hhd as [|q l' Hpq]; [constructor|].
  cbn [map]. constructor. inversion Hrest as [|? ? Hq _]; subst.
  unfold index_order. rewrite Hp, Hq. exact Hpq.
Qed.

Lemma object_keys_order (idMap : IdMap) :
  exists indexed,
    object_keys idMap
    = indexed ++ List.filter (fun k => negb (is_index k)) (map fst idMap)
    /\ indexed ≡ₚ List.filter is_index (map fst idMap)
    /\ Sorted index_order indexed.
Proof.
  destruct (indexed_keys idMap) as [Hmap Hall].
  eexists. split; [|split].
  - unfold object_keys. f_equal. apply filter_ext. intros k. unfold is_index.
    destruct (array_index k); reflexivity.
  - rewrite merge_sort_Permutation, Hmap. reflexivity.
  - apply Sorted_index_order; [apply (Sorted_merge_sort index_le)|].
    rewrite merge_sort_Permutation. exact Hall.
Qed.

(** X8: the order of the merged lines is the order of [Object.keys]: the
    groups whose key is an array index come first, by ascending index,
    and all other groups follow in the order in which their key is first
    met; with no such key the lines stand in first-met order. *)
Theorem merge_order (argv : TeachArgv) (dialogues : list Dialogue) :
  let by_question := truthy (Options.question (options argv)) in
  let threshold := default 5 (mergeThreshold (config argv)) in
  let met := first_seen (map (group_key by_question) dialogues) in
  Forall (fun d => inherited (group_key by_question d) = false) dialogues ->
  (exists indexed,
     merge_output argv dialogues
     = Some (map (fun key => render_group by_question threshold key
                               (group_ids by_question key dialogues))
                 (indexed ++ List.filter (fun k => negb (is_index k)) met))
     /\ indexed ≡ₚ List.filter is_index met
     /\ Sorted index_order indexed)
  /\ (Forall (fun d => is_index (group_key by_question d) = false) dialogues ->
      merge_output argv dialogues
      = Some (map (fun key => render_group by_question threshold key
                                (group_ids by_question key dialogues)) met)).
Proof.
  intros by_question threshold met Hsafe.
  destruct (collect_ids_spec by_question dialogues Hsafe [] (NoDup_nil_2 (A:=jsstring)))
    as (idMap & Hrun & Hnd & Hkeys & Hids).
  pose proof (collect_ids_keys _ _ _ _ Hrun) as Hmet. cbn [map] in Hmet.
  fold (first_seen (map (group_key by_question) dialogues)) in Hmet. fold met in Hmet.
  assert (Hout : merge_output argv dialogues
    = Some (map (fun key => render_group by_question threshold key
                              (group_ids by_question key dialogues))
                (object_keys idMap))).
  { unfold merge_output. fold by_question. fold threshold.
    rewrite Hrun, option_bind_Some. f_equal. apply map_ext.
    intros key. rewrite Hids. reflexivity. }
  destruct (object_keys_order idMap) as (indexed & Hkeys' & Hperm & Hsorted).
  rewrite Hmet in Hkeys', Hperm. split.
  - exists indexed. rewrite Hout, Hkeys'. auto.
  - intros Hplain.
    assert (Hnone : forall k, k ∈ met -> is_index k = false).
    { intros k Hk. rewrite <- Hmet in Hk. apply Hkeys in Hk as [Hk|Hk]; [inversion Hk|].
      apply list_elem_of_In, in_map_iff in Hk as (d & <- & Hd).
      rewrite Forall_forall in Hplain. apply Hplain, list_elem_of_In, Hd. }
    assert (Hfilter : forall l : list jsstring, (forall k, k ∈ l -> is_index k = false) ->
      List.filter is_index l = []
      /\ List.filter (fun k => negb (is_index k)) l = l).
    { induction l as [|k l IH]; intros Hl; [split; reflexivity|].
      cbn [List.filter]. rewrite (Hl k) by left. cbn [negb].
      destruct IH as [IH1 IH2]; [intros k' Hk'; apply Hl; right; exact Hk'|].
      rewrite IH1, IH2. split; reflexivity. }
    destruct (Hfilter met Hnone) as [Hf1 Hf2].
    rewrite Hf1 in Hperm. apply Permutation_nil_r in Hperm.
    rewrite Hout, Hkeys', Hperm, Hf2. reflexivity.
Qed.

Lemma merge_order_witness :
  exists indexed,
    merge_output MoreFixtures.mixed_argv MoreFixtures.mixed
    = Some (map (fun key => render_group true 5 key
                              (group_ids true key MoreFixtures.mixed))
                (indexed ++ [lit "b"]))
    /\ indexed ≡ₚ [lit "10"; lit "9"]
    /\ Sorted index_order indexed.
Proof.
  destruct (proj1 (merge_order MoreFixtures.mixed_argv MoreFixtures.mixed
                     ltac:(repeat constructor)))
    as (indexed & Hrun & Hperm & Hsorted).
  exists indexed. split; [exact Hrun|]. split; [exact Hperm|exact Hsorted].
Defined.

(** Questions "b", "10", "b", "9": the numeric texts come first. *)
Example merge_order_mixed :
  merge_output MoreFixtures.mixed_argv MoreFixtures.mixed
  = Some [lit "9 (#4)"; lit "10 (#2)"; lit "b (#1, #3)"].
Proof. vm_compute. reflexivity. Qed.

End MergeMore.

(** ** What the resolver attaches and asks for *)

Section ResolverMore.

Context (argv : TeachArgv) (test : DialogueTest.t).

Lemma js_in_false_inherited (q : jsstring) (m : gmap jsstring (list Dialogue)) :
  js_in q m = false -> inherited q = false.
Proof. unfold js_in. destruct (m !! q); [discriminate|auto]. Qed.

Lemma getRedirections_sound (universe : list Dialogue) :
  store_within (ctx argv) universe ->
  forall (fuel : nat) (dialogues : list Dialogue) (st : Resolution) res st',
    getRedirections argv test fuel dialogues st = Some (res, st') ->
    dialogues ⊆ universe ->
    Forall (asked_by argv test universe) (lookups st) ->
    Forall2 (annotation argv test) res dialogues
    /\ Forall (asked_by argv test universe) (lookups st').
Proof.
  intros Hstore. induction fuel as [|fuel IHfuel]; [discriminate|].
  induction dialogues as [|d rest IHrest]; intros st res st' Hrun Hsub Hasked.
  - rewrite getRedirections_nil in Hrun. inversion Hrun. subst.
    split; [constructor|exact Hasked].
  - assert (Hd : d ∈ universe) by (apply Hsub; left).
    assert (Hrest : rest ⊆ universe).
    { intros x Hx. apply Hsub. right. exact Hx. }
    rewrite getRedirections_cons in Hrun.
    assert (Hskip :
      ('(rest', st') ← getRedirections argv test (S fuel) rest st;
       Some (d :: rest', st')) = Some (res, st') ->
      Forall2 (annotation argv test) res (d :: rest)
      /\ Forall (asked_by argv test universe) (lookups st')).
    { intros H.
      destruct (getRedirections argv test (S fuel) rest st) as [[r s']|] eqn:Hr;
        [|discriminate].
      rewrite option_bind_Some in H. inversion H. subst.
      destruct (IHrest _ _ _ Hr Hrest Hasked) as [Hann Hlook].
      split; [constructor; [apply annotation_none|exact Hann]|exact Hlook]. }
    destruct (redirect_target (config argv) (answer d)) as [q|] eqn:Htarget;
      [|auto].
    destruct (js_in q (questions st)) eqn:Hin; [auto|].
    clear Hskip. cbv zeta in Hrun.
    destruct (getRedirections argv test fuel _ _) as [[children st2]|] eqn:Hrun2;
      [|discriminate].
    rewrite option_bind_Some in Hrun. cbv beta iota in Hrun.
    destruct (getRedirections argv test (S fuel) rest st2) as [[r st3]|] eqn:Hrun3;
      [|discriminate].
    rewrite option_bind_Some in Hrun. inversion Hrun. subst.
    pose proof (js_in_false_inherited _ _ Hin) as Hown.
    destruct (IHfuel _ _ _ _ Hrun2) as [Hann2 Hlook2].
    { intros x Hx. eapply Hstore. exact Hx. }
    { cbn [lookups]. apply Forall_app. split; [exact Hasked|].
      apply Forall_singleton. exists d, q. auto. }
    destruct (IHrest _ _ _ Hrun3 Hrest Hlook2) as [Hann3 Hlook3].
    split; [|exact Hlook3].
    constructor; [|exact Hann3]. eapply annotation_some; eassumption.
Qed.

Lemma resolve_sound_total (dialogues store : list Dialogue) :
  store_within (ctx argv) store ->
  exists res st,
    (forall fuel, (length (dialogues ++ store) < fuel)%nat ->
                  resolve argv test fuel dialogues = Some (res, st))
    /\ Forall2 (annotation argv test) res dialogues
    /\ Forall2 same_record res dialogues
    /\ Forall (asked_by argv test (dialogues ++ store)) (lookups st)
    /\ NoDup (asked_questions st).
Proof.
  intros Hstore.
  destruct (resolve_total argv test dialogues store Hstore)
    as (res & st & Hrun & (Hnd & _) & Hsame).
  assert (Hstore' : store_within (ctx argv) (dialogues ++ store)).
  { intros t d Hd. apply elem_of_app. right. eapply Hstore. exact Hd. }
  destruct (getRedirections_sound (dialogues ++ store) Hstore'
              (S (length (dialogues ++ store))) dialogues _ res st
              (Hrun _ (Nat.lt_succ_diag_r _)))
    as [Hann Hlook].
  - intros x Hx. apply elem_of_app. left. exact Hx.
  - constructor.
  - exists res, st. auto.
Qed.

End ResolverMore.

Section ResolverMoreClaims.

(** X9: over a finite store the resolution only annotates: the result
    has the dialogues of the root result set, in their order and with
    their stored fields, and a dialogue either is left as it was or, its
    answer being a redirect, has received as [_redirections] the store's
    answer to the child test of its target, annotated in the same way. *)
Theorem resolve_annotates (argv : TeachArgv) (test : DialogueTest.t)
    (dialogues store : list Dialogue) :
  store_within (ctx argv) store ->
  exists res st,
    (forall fuel, (length (dialogues ++ store) < fuel)%nat ->
                  resolve argv test fuel dialogues = Some (res, st))
    /\ Forall2 (annotation argv test) res dialogues
    /\ Forall2 same_record res dialogues
    /\ length res = length dialogues.
Proof.
  intros Hstore.
  destruct (resolve_sound_total argv test dialogues store Hstore)
    as (res & st & Hrun & Hann & Hsame & _).
  exists res, st. repeat apply conj; try assumption.
  eapply Forall2_length. exact Hsame.
Qed.

Lemma resolve_annotates_witness :
  exists res st,
    (forall fuel, (3 < fuel)%nat ->
       resolve MoreFixtures.chain_argv MoreFixtures.chain_test fuel [MoreFixtures.dRoot]
       = Some (res, st))
    /\ Forall2 (annotation MoreFixtures.chain_argv MoreFixtures.chain_test) res
               [MoreFixtures.dRoot].
Proof.
  destruct (resolve_annotates MoreFixtures.chain_argv MoreFixtures.chain_test
              [MoreFixtures.dRoot] [MoreFixtures.dRoot; MoreFixtures.dTarget]
              (table_store_within _))
    as (res & st & Hrun & Hann & _).
  exists res, st. split; [exact Hrun|exact Hann].
Defined.

(** The scenario of one redirect: dialogue 3 receives dialogue 4, and the
    answer-first rendering has two lines, the second under ["=> "]. *)
Example resolve_chain :
  (fst <$> resolve MoreFixtures.chain_argv MoreFixtures.chain_test 2 [MoreFixtures.dRoot])
  = Some [set_redirections MoreFixtures.dRoot [MoreFixtures.dTarget]]
  /\ formatAnswers MoreFixtures.chain_argv
       [set_redirections MoreFixtures.dRoot [MoreFixtures.dTarget]] 0
     = [lit "3. ${dialogue target}" ++ NEWLINE ++ lit "=> 4. ok"].
Proof. split; vm_compute; reflexivity. Qed.

(** X10: over a finite store every lookup of the resolution is the child
    test of the target of a dialogue of the root result set or of the
    store, never of a name inherited from [Object.prototype], and there
    are at most as many lookups as there are redirecting dialogues among
    them. *)
Theorem resolve_lookups (argv : TeachArgv) (test : DialogueTest.t)
    (dialogues store : list Dialogue) :
  store_within (ctx argv) store ->
  exists res st,
    (forall fuel, (length (dialogues ++ store) < fuel)%nat ->
                  resolve argv test fuel dialogues = Some (res, st))
    /\ Forall (asked_by argv test (dialogues ++ store)) (lookups st)
    /\ (length (lookups st)
        <= length (targets (config argv) (dialogues ++ store)))%nat
    /\ (length (lookups st) <= length (dialogues ++ store))%nat.
Proof.
  intros Hstore.
  destruct (resolve_sound_total argv test dialogues store Hstore)
    as (res & st & Hrun & _ & _ & Hasked & Hnd).
  exists res, st. split; [exact Hrun|]. split; [exact Hasked|].
  assert (Hle : (length (lookups st)
                 <= length (targets (config argv) (dialogues ++ store)))%nat).
  { replace (length (lookups st)) with (length (asked_questions st))
      by (unfold asked_questions; apply length_map).
    replace (length (targets (config argv) (dialogues ++ store)))
      with (length (map Some (targets (config argv) (dialogues ++ store))))
      by apply length_map.
    apply submseteq_length, NoDup_submseteq; [exact Hnd|].
    intros x Hx. unfold asked_questions in Hx.
    apply list_elem_of_In, in_map_iff in Hx as (t & <- & Ht).
    rewrite Forall_forall in Hasked.
    destruct (Hasked t (proj2 (list_elem_of_In _ _) Ht)) as (d & q & Hd & Hq & _ & ->).
    cbn [child_test DialogueTest.question].
    apply list_elem_of_In, in_map, list_elem_of_In.
    unfold targets. apply list_elem_of_omap. exists d. auto. }
  split; [exact Hle|].
  etransitivity; [exact Hle|]. unfold targets.
  generalize (dialogues ++ store). intros l. induction l as [|d l IH]; [reflexivity|].
  cbn [omap list_omap]. destruct (redirect_target (config argv) (answer d));
    cbn [length]; lia.
Qed.

Lemma resolve_lookups_witness :
  exists res st,
    (forall fuel, (3 < fuel)%nat ->
       resolve Fixtures.cycle_argv Fixtures.cycle_test fuel [Fixtures.dA]
       = Some (res, st))
    /\ (length (lookups st) <= 3)%nat.
Proof.
  destruct (resolve_lookups Fixtures.cycle_argv Fixtures.cycle_test
              [Fixtures.dA] [Fixtures.dA; Fixtures.dB]
              (table_store_within _))
    as (res & st & Hrun & _ & _ & Hle).
  exists res, st. split; [exact Hrun|exact Hle].
Defined.

End ResolverMoreClaims.

(** ** What a search ends with *)

Section SearchMore.

Lemma report_sent (argv : TeachArgv) (dialogues : list Dialogue) :
  report argv dialogues = Thrown \/ is_Some (sent argv (report argv dialogues)).
Proof.
  unfold report.
  destruct (truthy (Options.question (options argv)));
    destruct (truthy (Options.answer (options argv)));
    destruct (is_true_opt (Options.keyword (options argv)));
    destruct (Options.autoMerge (options argv));
    cbn [negb andb orb];
    destruct (is_empty dialogues);
    try destruct (merge_output argv dialogues);
    first [left; reflexivity | right; cbn [sent]; eauto].
Qed.

Lemma same_record_inherited (by_question : bool) (res dialogues : list Dialogue) :
  Forall2 same_record res dialogues ->
  Exists (fun d => inherited (group_key by_question d) = true) res
  <-> Exists (fun d => inherited (group_key by_question d) = true) dialogues.
Proof.
  induction 1 as [|d' d res' ds' (_ & Ho & Ha & _) _ IH].
  - split; intros H; inversion H.
  - assert (Hkey : group_key by_question d' = group_key by_question d).
    { unfold group_key. rewrite Ho, Ha. reflexivity. }
    rewrite !Exists_cons, IH, Hkey. reflexivity.
Qed.

(** X11: a search that is neither bailed out of nor piped, over a finite
    store, always ends the same way for every sufficient bound: it sends
    one text, or it throws, and it throws exactly when the merge step
    runs and a found dialogue's group key is a name inherited from
    [Object.prototype]; resolving redirections first changes nothing to
    that. *)
Theorem search_outcome (argv : TeachArgv) (test : DialogueTest.t)
    (store : list Dialogue) :
  bail_dialogue_search (ctx argv) (initial_test (options argv)) = (false, test) ->
  truthy (Options.pipe (options argv)) = false ->
  store_within (ctx argv) store ->
  exists o,
    (forall fuel, (length (getDialogues (ctx argv) test ++ store) < fuel)%nat ->
                  search fuel argv = Some o)
    /\ (o = Thrown
        <-> merge_applies (options argv) = true
            /\ Exists (fun d => inherited
                                  (group_key (truthy (Options.question (options argv))) d)
                                = true)
                      (getDialogues (ctx argv) test))
    /\ (o = Thrown \/ is_Some (sent argv o)).
Proof.
  intros Hbail Hpipe Hstore.
  destruct (Options.recursive (options argv)) eqn:Hrec.
  - destruct (resolve_total argv test (getDialogues (ctx argv) test) store Hstore)
      as (res & st & Hrun & _ & Hsame).
    exists (report argv res). split; [|split].
    + intros fuel Hfuel. unfold search. rewrite Hbail, Hpipe, Hrec.
      rewrite (Hrun fuel Hfuel). cbn [fmap option_fmap option_map fst].
      rewrite option_bind_Some. reflexivity.
    + rewrite report_thrown_merge, merge_output_None.
      rewrite (same_record_inherited _ _ _ Hsame). reflexivity.
    + apply report_sent.
  - exists (report argv (getDialogues (ctx argv) test)). split; [|split].
    + intros fuel _. unfold search. rewrite Hbail, Hpipe, Hrec.
      rewrite option_bind_Some. reflexivity.
    + rewrite report_thrown_merge, merge_output_None. reflexivity.
    + apply report_sent.
Qed.

Lemma search_outcome_witness :
  exists o,
    (forall fuel, (3 < fuel)%nat -> search fuel Fixtures.cycle_argv = Some o)
    /\ (o = Thrown \/ is_Some (sent Fixtures.cycle_argv o)).
Proof.
  destruct (search_outcome Fixtures.cycle_argv (initial_test Fixtures.cycle_options)
              [Fixtures.dA; Fixtures.dB] eq_refl eq_refl (table_store_within _))
    as (o & Hrun & _ & Hsent).
  exists o. split; [exact Hrun|exact Hsent].
Defined.

End SearchMore.

(** ** Tags and the trigger rate *)

Section Tags.

Lemma rate_label_head :
  exists c l, lit "实际触发概率：" = c :: l.
Proof. vm_compute. eauto. Qed.

(** X12: in a search by exact question alone the line of the trigger
    rate is pushed after the answers exactly when more than one dialogue
    is found; with a single dialogue the suffix is the empty string and
    nothing is pushed. *)
Theorem rate_line_when_several (argv : TeachArgv) (dialogues : list Dialogue) :
  truthy (Options.question (options argv)) = true ->
  truthy (Options.answer (options argv)) = false ->
  is_true_opt (Options.keyword (options argv)) = false ->
  dialogues <> [] ->
  exists title suffix,
    report argv dialogues = Listing title (formatAnswers argv dialogues 0) suffix
    /\ forall output,
         push_suffix output suffix
         = if (1 <? length dialogues)%nat
           then output ++ [lit "实际触发概率：" ++ trigger_rate (ctx argv) dialogues]
           else output.
Proof.
  intros Hq Ha Hk Hne. unfold report. rewrite Hq, Ha, Hk. cbn [negb andb orb].
  destruct dialogues as [|d rest] eqn:Hds; [congruence|]. cbn [is_empty].
  rewrite <- Hds. eexists. eexists. split; [reflexivity|].
  intros output. unfold push_suffix.
  destruct (1 <? length dialogues)%nat; [|reflexivity].
  destruct rate_label_head as (c & l & ->). reflexivity.
Qed.

Lemma rate_line_when_several_witness :
  exists title suffix,
    report Fixtures.cycle_argv [Fixtures.dA; Fixtures.dB]
    = Listing title (formatAnswers Fixtures.cycle_argv [Fixtures.dA; Fixtures.dB] 0) suffix
    /\ push_suffix [] suffix = [lit "实际触发概率：1"].
Proof.
  destruct (rate_line_when_several Fixtures.cycle_argv [Fixtures.dA; Fixtures.dB]
              eq_refl eq_refl eq_refl ltac:(discriminate))
    as (title & suffix & Hrep & Hpush).
  exists title, suffix. split; [exact Hrep|]. rewrite Hpush. vm_compute. reflexivity.
Defined.

(** X13: a dialogue whose flag has the keyword bit is tagged
    [[关键词]] in every prefix, whatever question type the listeners of
    ['dialogue/detail-short'] have set; their labels are kept. *)
Theorem keyword_tag_forced (argv : TeachArgv) (d : Dialogue) :
  Z.land (flag d) (DialogueFlag_keyword (ctx argv)) <> 0 ->
  questionType (getDetails argv d) = Some (lit "关键词")
  /\ labels (getDetails argv d) = labels (emit_detail_short (ctx argv) d)
  /\ formatPrefix argv d false
     = formatDetails d (emit_detail_short (ctx argv) d) ++ lit "[关键词] ".
Proof.
  intros Hflag.
  assert (Hd : getDetails argv d
    = {| labels := labels (emit_detail_short (ctx argv) d);
         questionType := Some (lit "关键词");
         answerType := answerType (emit_detail_short (ctx argv) d) |}).
  { unfold getDetails.
    destruct (Z.land (flag d) (DialogueFlag_keyword (ctx argv)) =? 0) eqn:H;
      [apply Z.eqb_eq in H; contradiction|reflexivity]. }
  split; [rewrite Hd; reflexivity|]. split; [rewrite Hd; reflexivity|].
  unfold formatPrefix. rewrite Hd. cbn [questionType andb].
  assert (Ht : truthy (Some (lit "关键词")) = true) by (vm_compute; reflexivity).
  rewrite Ht. cbn [of_opt]. unfold formatDetails. cbn [labels].
  rewrite <- !app_assoc. reflexivity.
Qed.

Lemma keyword_tag_forced_witness :
  formatPrefix MoreFixtures.labelling_argv MoreFixtures.dKeyword false
  = lit "8. [x] [关键词] ".
Proof.
  refine (eq_trans (proj2 (proj2 (keyword_tag_forced MoreFixtures.labelling_argv
            MoreFixtures.dKeyword _))) _).
  - vm_compute. discriminate.
  - vm_compute. reflexivity.
Defined.

End Tags.
